(** * raylib-cpp [Model]: a shallow embedding of include/Model.hpp

    [raylib::Model] derives from the engine's plain struct [::Model] and adds
    constructors, a destructor, move operations and methods that forward to
    the engine's free functions.  The embedding keeps

    - the nine fields of the struct as a record,
    - wrapper objects in a store indexed by their address, so that
      [this == &other] and aliasing are what they are in the source,
    - every engine call as an event in a trace, answered by an engine handler
      that is a parameter of the development (raylib itself is not part of
      this header),
    - C++ exceptions and undefined behaviour as outcomes of a small monad. *)

From stdpp Require Import base option list gmap strings.
From Equations Require Import Equations.
From Stdlib Require Floats.

Local Open Scope Z_scope.

(** ** Pointers

    The pointer fields always hold either [nullptr] or the start of an
    allocation made by the engine. *)
Inductive ptr : Type :=
| nullptr
| Ptr (block : N).

Definition is_null (p : ptr) : bool :=
  match p with nullptr => true | Ptr _ => false end.

#[global] Instance ptr_eq_dec : EqDecision ptr.
Proof. solve_decision. Defined.

(** [unsigned char] quadruple of raylib.h; the header only uses it for the
    default tint [{255, 255, 255, 255}]. *)
Record Color : Type := mkColor { r : Z; g : Z; b : Z; a : Z }.

Record RaylibException : Type := mkRaylibException { what : string }.

(** How a method call ends: normally, by [throw], or outside what C++
    defines (a read through a dangling or null pointer). *)
Inductive Outcome (A : Type) : Type :=
| Returns (v : A)
| Throws (e : RaylibException)
| Undefined.
Arguments Returns {A} v.
Arguments Throws {A} e.
Arguments Undefined {A}.

(** ** What raylib.h provides

    [float] with the two comparisons the header uses, and the types whose
    contents the header never looks at.  They stay abstract: every statement
    below holds for IEEE comparisons (where anything compared with NaN is
    false) as well as for a total order.  [Hidden] is whatever the engine
    keeps besides mesh memory (GPU objects, the file system). *)
Class Raylib_h : Type := {
  float : Type;
  f0 : float;                       (* 0.0f *)
  f1 : float;                       (* 1.0f *)
  flt : float -> float -> bool;     (* a < b *)
  fgt : float -> float -> bool;     (* a > b *)
  Matrix : Type;
  Mesh : Type;
  ModelAnimation : Type;
  Hidden : Type
}.

Section Model_hpp.

Context `{Raylib_h}.

Record Vector3 : Type := mkVector3 { x : float; y : float; z : float }.

Record BoundingBox : Type := mkBoundingBox { min : Vector3; max : Vector3 }.

(** [struct Model] of raylib.h: the nine fields [set] copies. *)
Record Model : Type := mkModel {
  transform : Matrix;
  meshCount : Z;
  materialCount : Z;
  meshes : ptr;
  materials : ptr;
  meshMaterial : ptr;
  boneCount : Z;
  bones : ptr;
  bindPose : ptr
}.

(** *** Assignment to one field, [m.f = v] *)
Definition assign_transform (v : Matrix) (m : Model) : Model :=
  mkModel v (meshCount m) (materialCount m) (meshes m) (materials m)
          (meshMaterial m) (boneCount m) (bones m) (bindPose m).
Definition assign_meshCount (v : Z) (m : Model) : Model :=
  mkModel (transform m) v (materialCount m) (meshes m) (materials m)
          (meshMaterial m) (boneCount m) (bones m) (bindPose m).
Definition assign_materialCount (v : Z) (m : Model) : Model :=
  mkModel (transform m) (meshCount m) v (meshes m) (materials m)
          (meshMaterial m) (boneCount m) (bones m) (bindPose m).
Definition assign_meshes (v : ptr) (m : Model) : Model :=
  mkModel (transform m) (meshCount m) (materialCount m) v (materials m)
          (meshMaterial m) (boneCount m) (bones m) (bindPose m).
Definition assign_materials (v : ptr) (m : Model) : Model :=
  mkModel (transform m) (meshCount m) (materialCount m) (meshes m) v
          (meshMaterial m) (boneCount m) (bones m) (bindPose m).
Definition assign_meshMaterial (v : ptr) (m : Model) : Model :=
  mkModel (transform m) (meshCount m) (materialCount m) (meshes m)
          (materials m) v (boneCount m) (bones m) (bindPose m).
Definition assign_boneCount (v : Z) (m : Model) : Model :=
  mkModel (transform m) (meshCount m) (materialCount m) (meshes m)
          (materials m) (meshMaterial m) v (bones m) (bindPose m).
Definition assign_bones (v : ptr) (m : Model) : Model :=
  mkModel (transform m) (meshCount m) (materialCount m) (meshes m)
          (materials m) (meshMaterial m) (boneCount m) v (bindPose m).
Definition assign_bindPose (v : ptr) (m : Model) : Model :=
  mkModel (transform m) (meshCount m) (materialCount m) (meshes m)
          (materials m) (meshMaterial m) (boneCount m) (bones m) v.

(** ** The engine

    One constructor per free function of raylib the header calls, indexed
    by what the call hands back.  [SetModelMeshMaterial] receives a
    pointer to the model, so it hands back the pointee as the engine left
    it; every other call receives the struct by value. *)
Inductive Call : Type -> Type :=
| LoadModel (fileName : string) : Call Model
| LoadModelFromMesh (mesh : Mesh) : Call Model
| UnloadModel (model : Model) : Call unit
| IsModelReady (model : Model) : Call bool
| SetModelMeshMaterial (model : Model) (meshId materialId : Z) : Call Model
| UpdateModelAnimation (model : Model) (anim : ModelAnimation) (frame : Z)
    : Call unit
| IsModelAnimationValid (model : Model) (anim : ModelAnimation) : Call bool
| DrawModel (model : Model) (position : Vector3) (scale : float)
    (tint : Color) : Call unit
| DrawModelEx (model : Model) (position rotationAxis : Vector3)
    (rotationAngle : float) (scale : Vector3) (tint : Color) : Call unit
| DrawModelWires (model : Model) (position : Vector3) (scale : float)
    (tint : Color) : Call unit
| DrawModelWiresEx (model : Model) (position rotationAxis : Vector3)
    (rotationAngle : float) (scale : Vector3) (tint : Color) : Call unit
| GetModelBoundingBox (model : Model) : Call BoundingBox.

(** What an observer of a run sees: the engine calls in order, and the
    reads of [meshes[i]] made by the header itself. *)
Inductive Event : Type :=
| EngineCall {T : Type} (c : Call T)
| ReadMesh (p : ptr) (i : Z).

Definition is_UnloadModel (e : Event) : bool :=
  match e with
  | EngineCall (UnloadModel _) => true
  | _ => false
  end.

Definition is_ReadMesh (e : Event) : bool :=
  match e with
  | ReadMesh _ _ => true
  | _ => false
  end.

(** Number of [UnloadModel] calls in a trace. *)
Definition unloads (t : list Event) : nat :=
  length (filter (fun e => is_UnloadModel e = true) t).

(** Memory owned by the engine: the mesh arrays by allocation, and
    whatever else the engine keeps. *)
Record Native : Type := mkNative {
  mesh_mem : gmap N (list Mesh);
  hidden : Hidden
}.

(** The engine answers a call and moves to its next state. *)
Class Engine : Type := {
  engine : forall T : Type, Call T -> Native -> T * Native
}.

(** [Mesh::GetTransformedBoundingBox(Matrix) const] lives in Mesh.hpp. *)
Class Mesh_hpp : Type := {
  Mesh_GetTransformedBoundingBox : Mesh -> Matrix -> BoundingBox
}.

Context {E : Engine} {MH : Mesh_hpp}.

(** ** Program states and the monad of the methods *)
Record World : Type := mkWorld {
  objs : gmap N Model;       (* wrapper objects by address *)
  native : Native;
  trace : list Event
}.

Definition M (A : Type) : Type := World -> Outcome A * World.

#[global] Instance M_ret : MRet M := fun A v w => (Returns v, w).

#[global] Instance M_bind : MBind M := fun A B f c w =>
  match c w with
  | (Returns v, w') => f v w'
  | (Throws e, w') => (Throws e, w')
  | (Undefined, w') => (Undefined, w')
  end.

Definition throw {A : Type} (e : RaylibException) : M A :=
  fun w => (Throws e, w).

(** Read the object at [this]. *)
Definition load (this : N) : M Model := fun w =>
  match objs w !! this with
  | Some m => (Returns m, w)
  | None => (Undefined, w)
  end.

(** Update the object at [this] in place. *)
Definition write (this : N) (f : Model -> Model) : M unit := fun w =>
  match objs w !! this with
  | Some m => (Returns tt, mkWorld (<[this := f m]> (objs w)) (native w) (trace w))
  | None => (Undefined, w)
  end.

(** The storage of the object at [this] ends. *)
Definition release (this : N) : M unit := fun w =>
  (Returns tt, mkWorld (delete this (objs w)) (native w) (trace w)).

(** One engine call: logged, then answered by the engine. *)
Definition call {T : Type} (c : Call T) : M T := fun w =>
  let (v, n) := engine T c (native w) in
  (Returns v, mkWorld (objs w) n (trace w ++ [EngineCall c])).

(** [meshes[i]]: defined only inside a live allocation. *)
Definition mesh_at (n : Native) (p : ptr) (i : Z) : option Mesh :=
  match p with
  | nullptr => None
  | Ptr blk =>
      if decide (0 <= i) then mesh_mem n !! blk ≫= (.!! Z.to_nat i) else None
  end.

Definition read_mesh (p : ptr) (i : Z) : M Mesh := fun w =>
  let w' := mkWorld (objs w) (native w) (trace w ++ [ReadMesh p i]) in
  match mesh_at (native w) p i with
  | Some mesh => (Returns mesh, w')
  | None => (Undefined, w')
  end.

(** ** The methods of [raylib::Model]

    A method takes the address [this] of its object.  A parameter of
    reference type to another wrapper ([Model&&]) is an address too. *)

(** [Model()]: nothing is written, the fields keep whatever the storage
    holds. *)
Definition Model_default (this : N) : M unit := mret tt.

(** [void set(const ::Model& model)], private.  [model] is the value the
    reference designates when [set] is entered; [set] only reads it, and
    when it designates [*this] each of the nine assignments writes back
    what it read. *)
Definition set (this : N) (model : Model) : M unit :=
  write this (assign_transform (transform model));;
  write this (assign_meshCount (meshCount model));;
  write this (assign_materialCount (materialCount model));;
  write this (assign_meshes (meshes model));;
  write this (assign_materials (materials model));;
  write this (assign_meshMaterial (meshMaterial model));;
  write this (assign_boneCount (boneCount model));;
  write this (assign_bones (bones model));;
  write this (assign_bindPose (bindPose model)).

(** [Model(const ::Model& model)] *)
Definition Model_copy_raw (this : N) (model : Model) : M unit :=
  set this model.

(** [Model& operator=(const ::Model& model)] *)
Definition assign_raw (this : N) (model : Model) : M N :=
  set this model;;
  mret this.

(** The eight assignments that follow [set(other)] in both move
    operations. *)
Definition null_out (other : N) : M unit :=
  write other (assign_meshCount 0);;
  write other (assign_materialCount 0);;
  write other (assign_meshes nullptr);;
  write other (assign_materials nullptr);;
  write other (assign_meshMaterial nullptr);;
  write other (assign_boneCount 0);;
  write other (assign_bones nullptr);;
  write other (assign_bindPose nullptr).

(** [Model(Model&& other)] *)
Definition Model_move (this other : N) : M unit :=
  o ← load other;
  set this o;;
  null_out other.

(** [inline void Unload()] *)
Definition Unload (this : N) : M unit :=
  m ← load this;
  if negb (is_null (meshes m)) || negb (is_null (materials m)) then
    call (UnloadModel m);;
    write this (assign_meshes nullptr);;
    write this (assign_materials nullptr)
  else mret tt.

(** [~Model()]: runs [Unload], then the storage is gone. *)
Definition Model_destroy (this : N) : M unit :=
  Unload this;;
  release this.

(** [Model& operator=(Model&& other) noexcept] *)
Definition assign_move (this other : N) : M N :=
  if decide (this = other) then mret this
  else
    Unload this;;
    o ← load other;
    set this o;;
    null_out other;;
    mret this.

(** [inline Model& SetMeshMaterial(int meshId, int materialId)]: the
    engine is given [this] and may write through it. *)
Definition SetMeshMaterial (this : N) (meshId materialId : Z) : M N :=
  m ← load this;
  m' ← call (SetModelMeshMaterial m meshId materialId);
  write this (fun _ => m');;
  mret this.

(** [inline Model& UpdateAnimation(const ::ModelAnimation& anim, int frame)] *)
Definition UpdateAnimation (this : N) (anim : ModelAnimation) (frame : Z)
  : M N :=
  m ← load this;
  call (UpdateModelAnimation m anim frame);;
  mret this.

(** [inline bool IsModelAnimationValid(const ::ModelAnimation& anim) const] *)
Definition Model_IsModelAnimationValid (this : N) (anim : ModelAnimation)
  : M bool :=
  m ← load this;
  call (IsModelAnimationValid m anim).

Definition WHITE : Color := mkColor 255 255 255 255.

(** [inline void Draw(::Vector3 position, float scale = 1.0f,
    ::Color tint = {255, 255, 255, 255}) const]; an omitted argument is
    [None]. *)
Definition Draw (this : N) (position : Vector3) (scale : option float)
  (tint : option Color) : M unit :=
  m ← load this;
  call (DrawModel m position (default f1 scale) (default WHITE tint)).

(** [inline void Draw(::Vector3 position, ::Vector3 rotationAxis,
    Radian rotationAngle = 0.0f, ::Vector3 scale = {1.0f, 1.0f, 1.0f},
    ::Color tint = {255, 255, 255, 255}) const] *)
Definition Draw_ex (this : N) (position rotationAxis : Vector3)
  (rotationAngle : option float) (scale : option Vector3)
  (tint : option Color) : M unit :=
  m ← load this;
  call (DrawModelEx m position rotationAxis (default f0 rotationAngle)
          (default (mkVector3 f1 f1 f1) scale) (default WHITE tint)).

(** [inline void DrawWires(::Vector3 position, float scale = 1.0f,
    ::Color tint = {255, 255, 255, 255}) const] *)
Definition DrawWires (this : N) (position : Vector3) (scale : option float)
  (tint : option Color) : M unit :=
  m ← load this;
  call (DrawModelWires m position (default f1 scale) (default WHITE tint)).

(** [inline void DrawWires(::Vector3 position, ::Vector3 rotationAxis,
    Radian rotationAngle = 0.0f, ::Vector3 scale = {1.0f, 1.0f, 1.0f},
    ::Color tint = {255, 255, 255, 255}) const] *)
Definition DrawWires_ex (this : N) (position rotationAxis : Vector3)
  (rotationAngle : option float) (scale : option Vector3)
  (tint : option Color) : M unit :=
  m ← load this;
  call (DrawModelWiresEx m position rotationAxis (default f0 rotationAngle)
          (default (mkVector3 f1 f1 f1) scale) (default WHITE tint)).

(** [inline BoundingBox GetBoundingBox() const] *)
Definition GetBoundingBox (this : N) : M BoundingBox :=
  m ← load this;
  call (GetModelBoundingBox m).

(** [operator BoundingBox() const] *)
Definition to_BoundingBox (this : N) : M BoundingBox :=
  GetBoundingBox this.

(** [bool IsReady() const] *)
Definition IsReady (this : N) : M bool :=
  m ← load this;
  call (IsModelReady m).

(** [void Load(const std::string_view fileName)]; the engine is handed
    [fileName.data()], here the characters of the view. *)
Definition Load_fileName (this : N) (fileName : string) : M unit :=
  model ← call (LoadModel fileName);
  set this model;;
  ready ← IsReady this;
  if negb ready
  then throw (mkRaylibException ("Failed to load Model from " +:+ fileName))
  else mret tt.

(** [void Load(const ::Mesh& mesh)] *)
Definition Load_mesh (this : N) (mesh : Mesh) : M unit :=
  model ← call (LoadModelFromMesh mesh);
  set this model;;
  ready ← IsReady this;
  if negb ready
  then throw (mkRaylibException "Failed to load Model from Mesh")
  else mret tt.

(** [Model(const std::string_view fileName)] *)
Definition Model_fileName (this : N) (fileName : string) : M unit :=
  Load_fileName this fileName.

(** [Model(const ::Mesh& mesh)] *)
Definition Model_mesh (this : N) (mesh : Mesh) : M unit :=
  Load_mesh this mesh.

(** *** [BoundingBox GetTransformedBoundingBox() const] *)

(** The six assignments to [temp] and the two to [bounds] in the body of
    the [for] loop, once [tempBounds] is known.  [temp] is declared
    before the loop and lives across iterations. *)
Definition loop_body (bounds : BoundingBox) (temp : Vector3)
  (tempBounds : BoundingBox) : BoundingBox * Vector3 :=
  let temp := mkVector3
    (if flt (x (min bounds)) (x (min tempBounds))
     then x (min bounds) else x (min tempBounds)) (y temp) (z temp) in
  let temp := mkVector3 (x temp)
    (if flt (y (min bounds)) (y (min tempBounds))
     then y (min bounds) else y (min tempBounds)) (z temp) in
  let temp := mkVector3 (x temp) (y temp)
    (if flt (z (min bounds)) (z (min tempBounds))
     then z (min bounds) else z (min tempBounds)) in
  let bounds := mkBoundingBox temp (max bounds) in
  let temp := mkVector3
    (if fgt (x (max bounds)) (x (max tempBounds))
     then x (max bounds) else x (max tempBounds)) (y temp) (z temp) in
  let temp := mkVector3 (x temp)
    (if fgt (y (max bounds)) (y (max tempBounds))
     then y (max bounds) else y (max tempBounds)) (z temp) in
  let temp := mkVector3 (x temp) (y temp)
    (if fgt (z (max bounds)) (z (max tempBounds))
     then z (max bounds) else z (max tempBounds)) in
  let bounds := mkBoundingBox (min bounds) temp in
  (bounds, temp).

(** [for (...; i < meshCount; i++)], entered with the current [i].  The
    index never exceeds [meshCount], so [i++] cannot overflow an [int]. *)
Equations? loop (m : Model) (i : Z) (bounds : BoundingBox) (temp : Vector3)
  : M BoundingBox by wf (Z.to_nat (meshCount m - i)) lt :=
  loop m i bounds temp with decide (i < meshCount m) := {
    | left _ =>
        mesh ← read_mesh (meshes m) i;
        let tempBounds := Mesh_GetTransformedBoundingBox mesh (transform m) in
        let st := loop_body bounds temp tempBounds in
        loop m (i + 1) (fst st) (snd st)
    | right _ => mret bounds }.
Proof. lia. Qed.

(** [BoundingBox bounds = {}] has every coordinate zero, and so has
    [Vector3 temp = { 0 }].  The method is [const] and calls nothing that
    could write [*this], so its fields are read once. *)
Definition GetTransformedBoundingBox (this : N) : M BoundingBox :=
  m ← load this;
  let bounds := mkBoundingBox (mkVector3 f0 f0 f0) (mkVector3 f0 f0 f0) in
  if decide (meshCount m > 0) then
    let temp := mkVector3 f0 f0 f0 in
    mesh ← read_mesh (meshes m) 0;
    let bounds := Mesh_GetTransformedBoundingBox mesh (transform m) in
    loop m 1 bounds temp
  else mret bounds.

(** *** Accessors

    Modelled from the spec: the macro [GETTERSETTER(type, method, name)]
    comes from raylib-cpp-utils.hpp, which is not among the sources.  The
    spec speaks of "exposing getters/setters for POD fields":
    [Get##method() const] returns the field [name], and
    [Set##method(type value)] assigns [value] to it. *)
Definition GETTER {T : Type} (name : Model -> T) (this : N) : M T :=
  m ← load this;
  mret (name m).

Definition SETTER {T : Type} (assign_name : T -> Model -> Model) (this : N)
  (value : T) : M unit :=
  write this (assign_name value).

Definition GetTransform := GETTER transform.
Definition SetTransform := SETTER assign_transform.
Definition GetMeshCount := GETTER meshCount.
Definition SetMeshCount := SETTER assign_meshCount.
Definition GetMaterialCount := GETTER materialCount.
Definition SetMaterialCount := SETTER assign_materialCount.
Definition GetMeshes := GETTER meshes.
Definition SetMeshes := SETTER assign_meshes.
Definition GetMaterials := GETTER materials.
Definition SetMaterials := SETTER assign_materials.
Definition GetMeshMaterial := GETTER meshMaterial.
Definition SetMeshMaterial_field := SETTER assign_meshMaterial.
Definition GetBoneCount := GETTER boneCount.
Definition SetBoneCount := SETTER assign_boneCount.
Definition GetBones := GETTER bones.
Definition SetBones := SETTER assign_bones.
Definition GetBindPose := GETTER bindPose.
Definition SetBindPose := SETTER assign_bindPose.

(** ** Vocabulary of the specification *)

(** The nine fields by name, and "field [f] has the same value in [m] and
    [m']". *)
Inductive field : Type :=
| F_transform | F_meshCount | F_materialCount | F_meshes | F_materials
| F_meshMaterial | F_boneCount | F_bones | F_bindPose.

Definition same_field (f : field) (m m' : Model) : Prop :=
  match f with
  | F_transform => transform m' = transform m
  | F_meshCount => meshCount m' = meshCount m
  | F_materialCount => materialCount m' = materialCount m
  | F_meshes => meshes m' = meshes m
  | F_materials => materials m' = materials m
  | F_meshMaterial => meshMaterial m' = meshMaterial m
  | F_boneCount => boneCount m' = boneCount m
  | F_bones => bones m' = bones m
  | F_bindPose => bindPose m' = bindPose m
  end.

(** A moved-from object: the three counts are zero and the five pointers
    are null. *)
Definition nulled_out (o : Model) : Prop :=
  meshCount o = 0 /\ materialCount o = 0 /\ boneCount o = 0 /\
  meshes o = nullptr /\ materials o = nullptr /\ meshMaterial o = nullptr /\
  bones o = nullptr /\ bindPose o = nullptr.

(** What the eight assignments of a move leave in the source. *)
Definition moved_from (o : Model) : Model :=
  mkModel (transform o) 0 0 nullptr nullptr nullptr 0 nullptr nullptr.

(** The world with the object at [this] replaced and nothing else changed. *)
Definition with_obj (this : N) (m : Model) (w : World) : World :=
  mkWorld (<[this := m]> (objs w)) (native w) (trace w).

(** Componentwise minimum and maximum of two vectors, each coordinate
    chosen by the comparison the header uses. *)
Definition fmin (p q : float) : float := if flt p q then p else q.
Definition fmax (p q : float) : float := if fgt p q then p else q.

Definition Vector3Min (v w : Vector3) : Vector3 :=
  mkVector3 (fmin (x v) (x w)) (fmin (y v) (y w)) (fmin (z v) (z w)).
Definition Vector3Max (v w : Vector3) : Vector3 :=
  mkVector3 (fmax (x v) (x w)) (fmax (y v) (y w)) (fmax (z v) (z w)).

(** The merge of two boxes: componentwise minimum of the [min] corners,
    componentwise maximum of the [max] corners. *)
Definition merge (acc box : BoundingBox) : BoundingBox :=
  mkBoundingBox (Vector3Min (min acc) (min box)) (Vector3Max (max acc) (max box)).

(** [outer] encloses [box]: no coordinate of [box]'s [min] corner compares
    below [outer]'s, none of its [max] corner compares above [outer]'s. *)
Definition encloses (outer box : BoundingBox) : Prop :=
  flt (x (min box)) (x (min outer)) = false /\
  flt (y (min box)) (y (min outer)) = false /\
  flt (z (min box)) (z (min outer)) = false /\
  fgt (x (max box)) (x (max outer)) = false /\
  fgt (y (max box)) (y (max outer)) = false /\
  fgt (z (max box)) (z (max outer)) = false.

(** Every coordinate of [outer] is that coordinate of one of [boxes]. *)
Definition attained (outer : BoundingBox) (boxes : list BoundingBox) : Prop :=
  x (min outer) ∈ (fun b => x (min b)) <$> boxes /\
  y (min outer) ∈ (fun b => y (min b)) <$> boxes /\
  z (min outer) ∈ (fun b => z (min b)) <$> boxes /\
  x (max outer) ∈ (fun b => x (max b)) <$> boxes /\
  y (max outer) ∈ (fun b => y (max b)) <$> boxes /\
  z (max outer) ∈ (fun b => z (max b)) <$> boxes.

(** The six coordinates of a box, and all coordinates of a list of boxes. *)
Definition box_coordinates (box : BoundingBox) : list float :=
  [x (min box); y (min box); z (min box); x (max box); y (max box); z (max box)].

Definition coordinates (boxes : list BoundingBox) : list float :=
  boxes ≫= box_coordinates.

(** The values [vals] are mutually comparable: on them [<] is irreflexive,
    asymmetric and negatively transitive (if [p] is not below [q] and [q]
    not below [s], then [p] is not below [s]), and [>] is the converse of
    [<].  IEEE numbers other than NaN are, both zeros and the infinities
    included; a NaN next to two different numbers is not. *)
Definition comparable_on (vals : list float) : Prop :=
  (forall p, p ∈ vals -> flt p p = false) /\
  (forall p q, p ∈ vals -> q ∈ vals -> flt p q = true -> flt q p = false) /\
  (forall p q s, p ∈ vals -> q ∈ vals -> s ∈ vals ->
     flt q p = false -> flt s q = false -> flt s p = false) /\
  (forall p q, p ∈ vals -> q ∈ vals -> fgt p q = flt q p).

(** The same condition as a test that runs on given values. *)
Definition comparable_onb (vals : list float) : bool :=
  forallb (fun p =>
    negb (flt p p) &&
    forallb (fun q =>
      implb (flt p q) (negb (flt q p)) &&
      Bool.eqb (fgt p q) (flt q p) &&
      forallb (fun s =>
        implb (negb (flt q p) && negb (flt s q)) (negb (flt s p))) vals)
      vals)
    vals.

(** [outer] is the componentwise minimum and maximum of [boxes]: it
    encloses each of them and each of its coordinates is attained. *)
Definition least_enclosing (outer : BoundingBox) (boxes : list BoundingBox)
  : Prop :=
  (forall box, box ∈ boxes -> encloses outer box) /\ attained outer boxes.

(** The box the specification describes for a non-empty list of per-mesh
    boxes: a left fold of [merge] that starts from the first one. *)
Definition merged_boxes (first : BoundingBox) (others : list BoundingBox)
  : BoundingBox :=
  foldl merge first others.

(** The per-mesh boxes of [meshes[0..meshCount-1]], given the array. *)
Definition mesh_boxes (m : Model) (array : list Mesh) : list BoundingBox :=
  (fun mesh => Mesh_GetTransformedBoundingBox mesh (transform m))
    <$> take (Z.to_nat (meshCount m)) array.

(** The reads [meshes[from]], ..., [meshes[from + count - 1]]. *)
Definition reads (p : ptr) (from : Z) (count : Z) : list Event :=
  ReadMesh p <$> seqZ from count.

(** One engine call made from world [w], seen from outside: the engine's
    answer is returned, the engine moves on, the trace grows by exactly
    this call, and no object changes. *)
Definition forwarded {T : Type} (c : Call T) (w : World) : Outcome T * World :=
  (Returns (fst (engine T c (native w))),
   mkWorld (objs w) (snd (engine T c (native w))) (trace w ++ [EngineCall c])).

(** A computation that leaves every object of the store as it found it,
    however it ends. *)
Definition keeps_fields {A : Type} (c : M A) : Prop :=
  forall w : World, objs (snd (c w)) = objs w.

(** The object holds something [Unload] would release. *)
Definition live (m : Model) : Prop :=
  meshes m <> nullptr \/ materials m <> nullptr.

(** Exclusive ownership: no two distinct wrappers hold the same non-null
    [meshes] pointer or the same non-null [materials] pointer. *)
Definition exclusive (os : gmap N Model) : Prop :=
  forall (a b : N) (ma mb : Model),
    a <> b -> os !! a = Some ma -> os !! b = Some mb ->
    (meshes ma <> nullptr -> meshes ma <> meshes mb) /\
    (materials ma <> nullptr -> materials ma <> materials mb).

(** A computation that never talks to the engine: the engine state stays
    as it is and every event it adds is a read of [meshes[i]]. *)
Definition only_reads {A : Type} (c : M A) : Prop :=
  forall w : World,
    native (snd (c w)) = native w /\
    exists rs : list Event,
      trace (snd (c w)) = trace w ++ rs /\
      Forall (fun e => is_ReadMesh e = true) rs.

(** The box with both corners at the origin. *)
Definition zero_box : BoundingBox :=
  mkBoundingBox (mkVector3 f0 f0 f0) (mkVector3 f0 f0 f0).

(** [Unload] called [k] times in a row. *)
Fixpoint Unload_times (k : nat) (this : N) : M unit :=
  match k with
  | O => mret tt
  | S k' => Unload this;; Unload_times k' this
  end.

End Model_hpp.

(** ** A concrete platform

    IEEE binary64 numbers stand for [float] (every binary32 value is one of
    them, and the comparisons agree).  A mesh is given by the two corners of
    its box, a matrix by an offset added to every coordinate.  The engine
    keeps the number of models it has unloaded. *)
Section Demo.

Definition demo_h : Raylib_h := {|
  float := PrimFloat.float;
  f0 := PrimFloat.zero;
  f1 := PrimFloat.one;
  flt := PrimFloat.ltb;
  fgt := fun p q => PrimFloat.ltb q p;
  Matrix := PrimFloat.float;
  Mesh := (PrimFloat.float * PrimFloat.float * PrimFloat.float)
          * (PrimFloat.float * PrimFloat.float * PrimFloat.float);
  ModelAnimation := unit;
  Hidden := nat
|}.

#[local] Existing Instance demo_h.

Definition demo_vec (d : PrimFloat.float)
  (v : PrimFloat.float * PrimFloat.float * PrimFloat.float) : Vector3 :=
  mkVector3 (PrimFloat.add v.1.1 d) (PrimFloat.add v.1.2 d) (PrimFloat.add v.2 d).

Definition demo_mesh_hpp : Mesh_hpp := {|
  Mesh_GetTransformedBoundingBox := fun mesh d =>
    mkBoundingBox (demo_vec d (fst mesh)) (demo_vec d (snd mesh))
|}.

Definition demo_empty : Model :=
  mkModel PrimFloat.zero 0 0 nullptr nullptr nullptr 0 nullptr nullptr.

(** What the demo engine loads from any file but "missing.obj". *)
Definition demo_loaded : Model :=
  mkModel PrimFloat.one 3 1 (Ptr 7) (Ptr 8) (Ptr 9) 0 nullptr nullptr.

(** raylib's own test: three pointers set and two counts positive. *)
Definition demo_ready (m : Model) : bool :=
  negb (is_null (meshes m)) && negb (is_null (materials m))
  && negb (is_null (meshMaterial m))
  && bool_decide (0 < meshCount m) && bool_decide (0 < materialCount m).

Definition demo_box : BoundingBox :=
  mkBoundingBox (mkVector3 PrimFloat.zero PrimFloat.zero PrimFloat.zero)
                (mkVector3 PrimFloat.one PrimFloat.one PrimFloat.one).

Definition demo_answer (T : Type) (c : Call T) (n : Native) : T * Native :=
  match c in Call T return T * Native with
  | LoadModel fileName =>
      (if bool_decide (fileName = "missing.obj") then demo_empty
       else demo_loaded, n)
  | LoadModelFromMesh mesh =>
      (demo_loaded,
       mkNative (<[7%N := [mesh; mesh; mesh]]> (mesh_mem n)) (hidden n))
  | UnloadModel model =>
      (tt,
       mkNative (match meshes model with
                 | Ptr blk => delete blk (mesh_mem n)
                 | nullptr => mesh_mem n
                 end) (S (hidden n)))
  | IsModelReady model => (demo_ready model, n)
  | SetModelMeshMaterial model _ _ => (model, n)
  | UpdateModelAnimation _ _ _ => (tt, n)
  | IsModelAnimationValid model _ => (bool_decide (boneCount model = 0), n)
  | DrawModel _ _ _ _ => (tt, n)
  | DrawModelEx _ _ _ _ _ _ => (tt, n)
  | DrawModelWires _ _ _ _ => (tt, n)
  | DrawModelWiresEx _ _ _ _ _ _ => (tt, n)
  | GetModelBoundingBox _ => (demo_box, n)
  end.

Definition demo_engine : Engine := {| engine := demo_answer |}.

(** Three meshes at block 7; the second one has NaN as its least [x]. *)
Definition demo_meshes : list Mesh :=
  [ ((PrimFloat.one, PrimFloat.zero, PrimFloat.two),
     (PrimFloat.two, PrimFloat.one, PrimFloat.two));
    ((PrimFloat.nan, PrimFloat.one, PrimFloat.one),
     (PrimFloat.one, PrimFloat.two, PrimFloat.two));
    ((PrimFloat.zero, PrimFloat.one, PrimFloat.zero),
     (PrimFloat.one, PrimFloat.one, PrimFloat.infinity)) ].

Definition demo_native : Native :=
  mkNative {[ 7%N := demo_meshes ]} 0%nat.

(** Object 1 holds a loaded model, object 2 is empty, object 3 has a
    material array but no meshes. *)
Definition demo_world : World :=
  mkWorld {[ 1%N := demo_loaded; 2%N := demo_empty;
             3%N := assign_materials (Ptr 5) demo_empty ]}
          demo_native [].

End Demo.

(** Three meshes whose least [x] are 0, NaN and 5, at block 7 of a world
    in which object 1 holds the loaded model. *)
Section NaN_demo.

#[local] Existing Instance demo_h.

Definition demo_five : PrimFloat.float :=
  PrimFloat.add PrimFloat.two (PrimFloat.add PrimFloat.two PrimFloat.one).

(** A mesh whose least [x] is NaN, and its box under the transform of the
    loaded model. *)
Definition nan_mesh : Mesh :=
  ((PrimFloat.nan, PrimFloat.zero, PrimFloat.zero),
   (PrimFloat.one, PrimFloat.one, PrimFloat.one)).

Definition nan_box : BoundingBox :=
  @Mesh_GetTransformedBoundingBox demo_h demo_mesh_hpp nan_mesh
    (transform demo_loaded).

Definition nan_meshes : list Mesh :=
  [ ((PrimFloat.zero, PrimFloat.zero, PrimFloat.zero),
     (PrimFloat.one, PrimFloat.one, PrimFloat.one));
    nan_mesh;
    ((demo_five, PrimFloat.zero, PrimFloat.zero),
     (PrimFloat.add demo_five PrimFloat.one, PrimFloat.one, PrimFloat.one)) ].

Definition nan_world : World :=
  mkWorld {[ 1%N := demo_loaded ]} (mkNative {[ 7%N := nan_meshes ]} 0%nat) [].

End NaN_demo.

(** ** Meshes without NaN

    Three meshes whose least [x] are 1, -0 and +0, under a transform that
    adds -0 and so changes no coordinate, and the same meshes in another
    order. *)
Section Plain_demo.

#[local] Existing Instance demo_h.

Definition plain_model : Model :=
  mkModel PrimFloat.neg_zero 3 1 (Ptr 7) (Ptr 8) (Ptr 9) 0 nullptr nullptr.

Definition plain_meshes : list Mesh :=
  [ ((PrimFloat.one, PrimFloat.zero, PrimFloat.two),
     (PrimFloat.two, PrimFloat.one, PrimFloat.two));
    ((PrimFloat.neg_zero, PrimFloat.one, PrimFloat.one),
     (PrimFloat.one, PrimFloat.two, PrimFloat.two));
    ((PrimFloat.zero, PrimFloat.one, PrimFloat.zero),
     (PrimFloat.one, PrimFloat.one, PrimFloat.infinity)) ].

Definition plain_meshes_shuffled : list Mesh :=
  [ ((PrimFloat.zero, PrimFloat.one, PrimFloat.zero),
     (PrimFloat.one, PrimFloat.one, PrimFloat.infinity));
    ((PrimFloat.one, PrimFloat.zero, PrimFloat.two),
     (PrimFloat.two, PrimFloat.one, PrimFloat.two));
    ((PrimFloat.neg_zero, PrimFloat.one, PrimFloat.one),
     (PrimFloat.one, PrimFloat.two, PrimFloat.two)) ].

Definition plain_world (array : list Mesh) : World :=
  mkWorld {[ 1%N := plain_model ]} (mkNative {[ 7%N := array ]} 0%nat) [].

End Plain_demo.

(** * Properties *)
Section Model_hpp_properties.

Context `{Raylib_h} {E : Engine} {MH : Mesh_hpp}.

(** ** Running the primitives *)

Lemma bind_Returns {A B : Type} (c : M A) (f : A -> M B) w v w' :
  c w = (Returns v, w') -> (c ≫= f) w = f v w'.
Proof. intros Hc. unfold mbind, M_bind. rewrite Hc. reflexivity. Qed.

Lemma load_run this w m :
  objs w !! this = Some m -> load this w = (Returns m, w).
Proof. intros Hm. unfold load. rewrite Hm. reflexivity. Qed.

Lemma write_run this f w m :
  objs w !! this = Some m -> write this f w = (Returns tt, with_obj this (f m) w).
Proof. intros Hm. unfold write. rewrite Hm. reflexivity. Qed.

Lemma call_run {T : Type} (c : Call T) w : call c w = forwarded c w.
Proof. unfold call, forwarded. destruct (engine T c (native w)). reflexivity. Qed.

Lemma with_obj_lookup this m w : objs (with_obj this m w) !! this = Some m.
Proof. apply lookup_insert_eq. Qed.

Lemma with_obj_lookup_ne this other m w :
  this <> other -> objs (with_obj this m w) !! other = objs w !! other.
Proof. intros Hne. apply lookup_insert_ne. exact Hne. Qed.

Lemma with_obj_twice this m m' w :
  with_obj this m' (with_obj this m w) = with_obj this m' w.
Proof. unfold with_obj. simpl. rewrite insert_insert_eq. reflexivity. Qed.

Lemma with_obj_same this m w : objs w !! this = Some m -> with_obj this m w = w.
Proof.
  intros Hm. destruct w as [os n t]. unfold with_obj. simpl in *.
  rewrite insert_id by exact Hm. reflexivity.
Qed.

(** A write to an object that was just written. *)
Lemma write_again this f m w :
  write this f (with_obj this m w) = (Returns tt, with_obj this (f m) w).
Proof.
  rewrite (write_run _ _ _ m) by apply with_obj_lookup.
  rewrite with_obj_twice. reflexivity.
Qed.

Ltac run_writes :=
  repeat (erewrite bind_Returns by apply write_again);
  try rewrite write_again.

Lemma nine_assignments (model m : Model) :
  assign_bindPose (bindPose model)
    (assign_bones (bones model)
      (assign_boneCount (boneCount model)
        (assign_meshMaterial (meshMaterial model)
          (assign_materials (materials model)
            (assign_meshes (meshes model)
              (assign_materialCount (materialCount model)
                (assign_meshCount (meshCount model)
                  (assign_transform (transform model) m))))))))
  = model.
Proof. destruct model. reflexivity. Qed.

(** [set] overwrites the whole object and touches nothing else. *)
Lemma set_run this model w m :
  objs w !! this = Some m -> set this model w = (Returns tt, with_obj this model w).
Proof.
  intros Hm. unfold set.
  erewrite bind_Returns by (apply write_run; exact Hm).
  run_writes. rewrite nine_assignments. reflexivity.
Qed.

Lemma null_out_run other w o :
  objs w !! other = Some o ->
  null_out other w = (Returns tt, with_obj other (moved_from o) w).
Proof.
  intros Ho. unfold null_out.
  erewrite bind_Returns by (apply write_run; exact Ho).
  run_writes. reflexivity.
Qed.

Lemma moved_from_nulled_out o : nulled_out (moved_from o).
Proof. repeat split. Qed.

Lemma is_null_true p : is_null p = true <-> p = nullptr.
Proof. destruct p; simpl; split; congruence. Qed.

Lemma is_null_false p : is_null p = false <-> p <> nullptr.
Proof. destruct p; simpl; split; congruence. Qed.

(** ** [Unload] *)

Lemma Unload_null this w m :
  objs w !! this = Some m -> meshes m = nullptr -> materials m = nullptr ->
  Unload this w = (Returns tt, w).
Proof.
  intros Hm Hmeshes Hmaterials. unfold Unload.
  erewrite bind_Returns by (apply load_run; exact Hm).
  rewrite Hmeshes, Hmaterials. reflexivity.
Qed.

Lemma Unload_live this w m :
  objs w !! this = Some m -> meshes m <> nullptr \/ materials m <> nullptr ->
  Unload this w
  = (Returns tt,
     with_obj this (assign_materials nullptr (assign_meshes nullptr m))
       (snd (forwarded (UnloadModel m) w))).
Proof.
  intros Hm Hlive. unfold Unload.
  erewrite bind_Returns by (apply load_run; exact Hm).
  assert (negb (is_null (meshes m)) || negb (is_null (materials m)) = true)
    as ->.
  { destruct Hlive as [Hp | Hp]; apply is_null_false in Hp; rewrite Hp;
      simpl; [reflexivity | apply orb_true_r]. }
  erewrite bind_Returns by apply call_run.
  erewrite bind_Returns by (apply write_run; exact Hm).
  rewrite write_again. reflexivity.
Qed.

Lemma live_or_null (m : Model) :
  (meshes m <> nullptr \/ materials m <> nullptr)
  \/ (meshes m = nullptr /\ materials m = nullptr).
Proof.
  destruct (meshes m), (materials m); auto; left; auto; right; congruence.
Qed.

Lemma unloads_app t t' : unloads (t ++ t') = (unloads t + unloads t')%nat.
Proof. unfold unloads. rewrite filter_app, length_app. reflexivity. Qed.

Lemma unloads_UnloadModel (m : Model) :
  unloads [EngineCall (UnloadModel m)] = 1%nat.
Proof. reflexivity. Qed.

(** C4.  [Unload] on an object whose value is [m] returns normally.  It
    makes the engine call [UnloadModel(m)], exactly one, when [meshes] or
    [materials] is not null, and no engine call at all when both are null.
    Afterwards both pointers are null.  A second [Unload] right after the
    first changes nothing, so the two calls together add at most one
    [UnloadModel] to the trace. *)
Theorem Unload_at_most_once (this : N) (w : World) (m : Model) :
  objs w !! this = Some m ->
  exists (w' : World) (m' : Model),
    Unload this w = (Returns tt, w') /\
    (meshes m <> nullptr \/ materials m <> nullptr ->
       trace w' = trace w ++ [EngineCall (UnloadModel m)]) /\
    (meshes m = nullptr /\ materials m = nullptr -> w' = w) /\
    objs w' !! this = Some m' /\ meshes m' = nullptr /\ materials m' = nullptr /\
    Unload this w' = (Returns tt, w') /\
    (Unload this;; Unload this) w = (Returns tt, w') /\
    (unloads (trace w') <= unloads (trace w) + 1)%nat.
Proof.
  intros Hm. destruct (live_or_null m) as [Hlive | [Hmeshes Hmaterials]].
  - pose proof (Unload_live _ _ _ Hm Hlive) as Hrun.
    eexists. eexists. split; [exact Hrun |].
    assert (Unload this
              (with_obj this (assign_materials nullptr (assign_meshes nullptr m))
                 (snd (forwarded (UnloadModel m) w)))
            = (Returns tt,
               with_obj this (assign_materials nullptr (assign_meshes nullptr m))
                 (snd (forwarded (UnloadModel m) w)))) as Hagain.
    { eapply Unload_null; [apply with_obj_lookup | reflexivity | reflexivity]. }
    split_and!.
    + intros _. reflexivity.
    + intros [Hmeshes Hmaterials]. destruct Hlive; congruence.
    + apply with_obj_lookup.
    + reflexivity.
    + reflexivity.
    + exact Hagain.
    + erewrite bind_Returns by exact Hrun. exact Hagain.
    + simpl. rewrite unloads_app, unloads_UnloadModel. lia.
  - pose proof (Unload_null _ _ _ Hm Hmeshes Hmaterials) as Hrun.
    exists w, m. split; [exact Hrun |].
    split_and!; try assumption.
    + intros [Hp | Hp]; congruence.
    + reflexivity.
    + erewrite bind_Returns by exact Hrun. exact Hrun.
    + lia.
Qed.

(** ** Moves *)

Lemma Model_move_run this other w dst src :
  this <> other -> objs w !! this = Some dst -> objs w !! other = Some src ->
  Model_move this other w
  = (Returns tt, with_obj other (moved_from src) (with_obj this src w)).
Proof.
  intros Hne Hdst Hsrc. unfold Model_move.
  erewrite bind_Returns by (apply load_run; exact Hsrc).
  erewrite bind_Returns by (eapply set_run; exact Hdst).
  apply null_out_run. rewrite with_obj_lookup_ne by exact Hne. exact Hsrc.
Qed.

Lemma assign_move_run this other w dst src :
  this <> other -> objs w !! this = Some dst -> objs w !! other = Some src ->
  exists w1,
    Unload this w = (Returns tt, w1) /\
    assign_move this other w
    = (Returns this, with_obj other (moved_from src) (with_obj this src w1)).
Proof.
  intros Hne Hdst Hsrc. unfold assign_move.
  destruct (decide (this = other)) as [Heq | _]; [contradiction |].
  assert (exists w1 d1, Unload this w = (Returns tt, w1)
                        /\ objs w1 !! this = Some d1
                        /\ objs w1 !! other = Some src) as (w1 & d1 & Hrun & Hd1 & Hs1).
  { destruct (live_or_null dst) as [Hlive | [Hmeshes Hmaterials]].
    - eexists. eexists. split; [apply Unload_live; eassumption |].
      split; [apply with_obj_lookup |].
      rewrite with_obj_lookup_ne by exact Hne. exact Hsrc.
    - exists w, dst. split; [eapply Unload_null; eassumption |]. auto. }
  exists w1. split; [exact Hrun |].
  erewrite bind_Returns by exact Hrun.
  erewrite bind_Returns by (apply load_run; exact Hs1).
  erewrite bind_Returns by (eapply set_run; exact Hd1).
  erewrite bind_Returns.
  2:{ apply null_out_run. rewrite with_obj_lookup_ne by exact Hne. exact Hs1. }
  reflexivity.
Qed.

Lemma moved_worlds_lookup this other src w :
  this <> other ->
  objs (with_obj other (moved_from src) (with_obj this src w)) !! this = Some src
  /\ objs (with_obj other (moved_from src) (with_obj this src w)) !! other
     = Some (moved_from src).
Proof.
  intros Hne. split.
  - rewrite with_obj_lookup_ne by congruence. apply with_obj_lookup.
  - apply with_obj_lookup.
Qed.

(** C3.  Let [this] and [other] be distinct objects, [other] holding [src]
    (an object under construction is new storage, so it is distinct from
    every argument).  Move construction and move assignment both return
    normally, leave in [this] exactly the nine field values [src] had, and
    leave [other] with its three counts zero and its five pointers null. *)
Theorem move_transfers_and_nulls (this other : N) (w : World) (dst src : Model) :
  this <> other -> objs w !! this = Some dst -> objs w !! other = Some src ->
  (exists w', Model_move this other w = (Returns tt, w') /\
              objs w' !! this = Some src /\
              exists o, objs w' !! other = Some o /\ nulled_out o)
  /\
  (exists w', assign_move this other w = (Returns this, w') /\
              objs w' !! this = Some src /\
              exists o, objs w' !! other = Some o /\ nulled_out o).
Proof.
  intros Hne Hdst Hsrc. split.
  - eexists. split; [apply (Model_move_run _ _ _ dst src); assumption |].
    destruct (moved_worlds_lookup this other src w Hne) as [Hthis Hother].
    split; [exact Hthis |]. exists (moved_from src).
    split; [exact Hother | apply moved_from_nulled_out].
  - destruct (assign_move_run _ _ _ _ _ Hne Hdst Hsrc) as (w1 & _ & Hrun).
    eexists. split; [exact Hrun |].
    destruct (moved_worlds_lookup this other src w1 Hne) as [Hthis Hother].
    split; [exact Hthis |]. exists (moved_from src).
    split; [exact Hother | apply moved_from_nulled_out].
Qed.

Lemma Unload_times_null k this w m :
  objs w !! this = Some m -> meshes m = nullptr -> materials m = nullptr ->
  Unload_times k this w = (Returns tt, w).
Proof.
  intros Hm Hmeshes Hmaterials. induction k as [| k IH]; [reflexivity |].
  simpl. erewrite bind_Returns by (eapply Unload_null; eassumption). exact IH.
Qed.

Lemma Model_destroy_null this w m :
  objs w !! this = Some m -> meshes m = nullptr -> materials m = nullptr ->
  Model_destroy this w
  = (Returns tt, mkWorld (delete this (objs w)) (native w) (trace w)).
Proof.
  intros Hm Hmeshes Hmaterials. unfold Model_destroy.
  erewrite bind_Returns by (eapply Unload_null; eassumption). reflexivity.
Qed.

(** C5.  After a move out of [other] into a distinct object, by construction
    or by assignment, any number [k] of calls of [Unload] on [other] leaves
    the world as it is, so no [UnloadModel] reaches the engine; the
    destructor of [other] only ends its storage: trace and engine state
    stay as they are. *)
Theorem moved_from_never_unloads (this other : N) (w : World)
  (dst src : Model) (k : nat) :
  this <> other -> objs w !! this = Some dst -> objs w !! other = Some src ->
  (exists w', Model_move this other w = (Returns tt, w') /\
              Unload_times k other w' = (Returns tt, w') /\
              exists w'', Model_destroy other w' = (Returns tt, w'') /\
                          trace w'' = trace w' /\ native w'' = native w')
  /\
  (exists w', assign_move this other w = (Returns this, w') /\
              Unload_times k other w' = (Returns tt, w') /\
              exists w'', Model_destroy other w' = (Returns tt, w'') /\
                          trace w'' = trace w' /\ native w'' = native w').
Proof.
  intros Hne Hdst Hsrc. split.
  - eexists. split; [apply (Model_move_run _ _ _ dst src); assumption |].
    destruct (moved_worlds_lookup this other src w Hne) as [_ Hother].
    split.
    + eapply Unload_times_null; [exact Hother | reflexivity | reflexivity].
    + eexists. split.
      * eapply Model_destroy_null; [exact Hother | reflexivity | reflexivity].
      * split; reflexivity.
  - destruct (assign_move_run _ _ _ _ _ Hne Hdst Hsrc) as (w1 & _ & Hrun).
    eexists. split; [exact Hrun |].
    destruct (moved_worlds_lookup this other src w1 Hne) as [_ Hother].
    split.
    + eapply Unload_times_null; [exact Hother | reflexivity | reflexivity].
    + eexists. split.
      * eapply Model_destroy_null; [exact Hother | reflexivity | reflexivity].
      * split; reflexivity.
Qed.

(** ** Copies from a raw [::Model] *)

(** C9.  Copy construction and assignment from a raw [::Model] return
    normally and leave in the wrapper exactly the nine field values of
    [model], pointers included, so the wrapper's pointers alias the
    source's.  The trace and the engine state are untouched: no
    [UnloadModel] is called, and what the wrapper held before is not
    released. *)
Theorem raw_copy_is_shallow (this : N) (w : World) (old model : Model) :
  objs w !! this = Some old ->
  (exists w', Model_copy_raw this model w = (Returns tt, w') /\
              objs w' !! this = Some model /\
              trace w' = trace w /\ native w' = native w /\
              unloads (trace w') = unloads (trace w))
  /\
  (exists w', assign_raw this model w = (Returns this, w') /\
              objs w' !! this = Some model /\
              trace w' = trace w /\ native w' = native w /\
              unloads (trace w') = unloads (trace w)).
Proof.
  intros Hold.
  pose proof (set_run this model w old Hold) as Hset.
  split; exists (with_obj this model w).
  - split; [exact Hset |]. split; [apply with_obj_lookup |]. auto.
  - split.
    + unfold assign_raw. erewrite bind_Returns by exact Hset. reflexivity.
    + split; [apply with_obj_lookup |]. auto.
Qed.

(** ** Loading *)

Lemma IsReady_run this w m :
  objs w !! this = Some m -> IsReady this w = forwarded (IsModelReady m) w.
Proof.
  intros Hm. unfold IsReady.
  erewrite bind_Returns by (apply load_run; exact Hm). apply call_run.
Qed.

(** The answers of the engine to a load call [c] made in state [n] and to
    the readiness test that follows it. *)
Lemma Load_run (c : Call Model) (e : RaylibException) this w garbage :
  objs w !! this = Some garbage ->
  let loaded := engine Model c (native w) in
  let ready := engine bool (IsModelReady (fst loaded)) (snd loaded) in
  (model ← call c;
   set this model;;
   ready ← IsReady this;
   if negb ready then throw e else mret tt) w
  = (if fst ready then Returns tt else Throws e,
     mkWorld (<[this := fst loaded]> (objs w)) (snd ready)
       (trace w ++ [EngineCall c] ++ [EngineCall (IsModelReady (fst loaded))])).
Proof.
  intros Hg loaded ready.
  erewrite bind_Returns by apply call_run.
  erewrite bind_Returns by (eapply set_run; exact Hg).
  erewrite bind_Returns.
  2:{ apply IsReady_run. apply with_obj_lookup. }
  simpl. fold loaded. fold ready. rewrite <- app_assoc.
  destruct (fst ready); reflexivity.
Qed.

(** C2.  Take any object and any engine.  Let [loaded] be what the engine's
    load call returns and [ready] the engine's answer to
    [IsModelReady(loaded)].  [Load(fileName)], [Load(mesh)] and the two
    constructors that call them throw a [RaylibException] when [ready] is
    false and return normally when it is true; in both cases the wrapper
    holds the nine field values of [loaded]. *)
Theorem Load_throws_iff_not_ready (this : N) (w : World) (garbage : Model) :
  objs w !! this = Some garbage ->
  (forall fileName : string,
     let loaded := engine Model (LoadModel fileName) (native w) in
     let ready := engine bool (IsModelReady (fst loaded)) (snd loaded) in
     exists w',
       Load_fileName this fileName w
       = (if fst ready then Returns tt
          else Throws (mkRaylibException
                         ("Failed to load Model from " +:+ fileName)), w') /\
       Model_fileName this fileName w = Load_fileName this fileName w /\
       objs w' !! this = Some (fst loaded))
  /\
  (forall mesh : Mesh,
     let loaded := engine Model (LoadModelFromMesh mesh) (native w) in
     let ready := engine bool (IsModelReady (fst loaded)) (snd loaded) in
     exists w',
       Load_mesh this mesh w
       = (if fst ready then Returns tt
          else Throws (mkRaylibException "Failed to load Model from Mesh"), w') /\
       Model_mesh this mesh w = Load_mesh this mesh w /\
       objs w' !! this = Some (fst loaded)).
Proof.
  intros Hg. split.
  - intros fileName loaded ready. eexists. split.
    + unfold Load_fileName. apply (Load_run _ _ _ _ garbage Hg).
    + split; [reflexivity | apply lookup_insert_eq].
  - intros mesh loaded ready. eexists. split.
    + unfold Load_mesh. apply (Load_run _ _ _ _ garbage Hg).
    + split; [reflexivity | apply lookup_insert_eq].
Qed.

(** ** Forwarding *)

(** C6.  On an object whose value is [m], [GetBoundingBox], [IsReady] and
    [IsModelAnimationValid] are the single engine calls
    [GetModelBoundingBox(m)], [IsModelReady(m)] and
    [IsModelAnimationValid(m, anim)]: same answer, same effect, one event.
    [SetMeshMaterial] and [UpdateAnimation] make exactly one call, of
    [SetModelMeshMaterial] and [UpdateModelAnimation], with their arguments
    unchanged, and return [*this].  The conversion to [BoundingBox] is
    [GetBoundingBox].  The four drawing methods are the single calls
    [DrawModel], [DrawModelWires], [DrawModelEx] and [DrawModelWiresEx],
    an omitted argument replaced by its default. *)
Theorem methods_forward (this : N) (w : World) (m : Model) :
  objs w !! this = Some m ->
  GetBoundingBox this w = forwarded (GetModelBoundingBox m) w /\
  IsReady this w = forwarded (IsModelReady m) w /\
  (forall anim,
     Model_IsModelAnimationValid this anim w
     = forwarded (IsModelAnimationValid m anim) w) /\
  (forall meshId materialId,
     SetMeshMaterial this meshId materialId w
     = (Returns this,
        mkWorld
          (<[this := fst (engine Model (SetModelMeshMaterial m meshId materialId)
                            (native w))]> (objs w))
          (snd (engine Model (SetModelMeshMaterial m meshId materialId)
                  (native w)))
          (trace w ++ [EngineCall (SetModelMeshMaterial m meshId materialId)]))) /\
  (forall anim frame,
     UpdateAnimation this anim frame w
     = (Returns this, snd (forwarded (UpdateModelAnimation m anim frame) w))) /\
  to_BoundingBox this w = GetBoundingBox this w /\
  (forall position scale tint,
     Draw this position scale tint w
     = forwarded (DrawModel m position (default f1 scale) (default WHITE tint)) w
     /\ DrawWires this position scale tint w
        = forwarded (DrawModelWires m position (default f1 scale)
                       (default WHITE tint)) w) /\
  (forall position rotationAxis rotationAngle scale tint,
     Draw_ex this position rotationAxis rotationAngle scale tint w
     = forwarded (DrawModelEx m position rotationAxis
                    (default f0 rotationAngle)
                    (default (mkVector3 f1 f1 f1) scale)
                    (default WHITE tint)) w
     /\ DrawWires_ex this position rotationAxis rotationAngle scale tint w
        = forwarded (DrawModelWiresEx m position rotationAxis
                       (default f0 rotationAngle)
                       (default (mkVector3 f1 f1 f1) scale)
                       (default WHITE tint)) w).
Proof.
  intros Hm. split_and!.
  - unfold GetBoundingBox.
    erewrite bind_Returns by (apply load_run; exact Hm). apply call_run.
  - apply IsReady_run. exact Hm.
  - intros anim. unfold Model_IsModelAnimationValid.
    erewrite bind_Returns by (apply load_run; exact Hm). apply call_run.
  - intros meshId materialId. unfold SetMeshMaterial.
    erewrite bind_Returns by (apply load_run; exact Hm).
    erewrite bind_Returns by apply call_run.
    erewrite bind_Returns by (apply (write_run _ _ _ m); exact Hm).
    reflexivity.
  - intros anim frame. unfold UpdateAnimation.
    erewrite bind_Returns by (apply load_run; exact Hm).
    erewrite bind_Returns by apply call_run. reflexivity.
  - reflexivity.
  - intros position scale tint. unfold Draw, DrawWires.
    split; (erewrite bind_Returns by (apply load_run; exact Hm));
      apply call_run.
  - intros position rotationAxis rotationAngle scale tint.
    unfold Draw_ex, DrawWires_ex.
    split; (erewrite bind_Returns by (apply load_run; exact Hm));
      apply call_run.
Qed.

(** ** Accessors *)

Lemma GETTER_run {T : Type} (name : Model -> T) this w m :
  objs w !! this = Some m -> GETTER name this w = (Returns (name m), w).
Proof.
  intros Hm. unfold GETTER.
  erewrite bind_Returns by (apply load_run; exact Hm). reflexivity.
Qed.

Ltac frame_of f := destruct f; try reflexivity; congruence.

(** C7.  On an object whose value is [m], each of the nine getters returns
    the value of its field and changes nothing; each of the nine setters
    returns normally and replaces the object by one in which its field
    holds the argument and each of the other eight fields is as in [m];
    other objects, the engine and the trace are untouched. *)
Theorem accessors_get_and_set (this : N) (w : World) (m : Model) :
  objs w !! this = Some m ->
  (GetTransform this w = (Returns (transform m), w) /\
   GetMeshCount this w = (Returns (meshCount m), w) /\
   GetMaterialCount this w = (Returns (materialCount m), w) /\
   GetMeshes this w = (Returns (meshes m), w) /\
   GetMaterials this w = (Returns (materials m), w) /\
   GetMeshMaterial this w = (Returns (meshMaterial m), w) /\
   GetBoneCount this w = (Returns (boneCount m), w) /\
   GetBones this w = (Returns (bones m), w) /\
   GetBindPose this w = (Returns (bindPose m), w))
  /\
  (forall v, exists m',
     SetTransform this v w = (Returns tt, with_obj this m' w) /\
     transform m' = v /\ forall f, f <> F_transform -> same_field f m m') /\
  (forall v, exists m',
     SetMeshCount this v w = (Returns tt, with_obj this m' w) /\
     meshCount m' = v /\ forall f, f <> F_meshCount -> same_field f m m') /\
  (forall v, exists m',
     SetMaterialCount this v w = (Returns tt, with_obj this m' w) /\
     materialCount m' = v /\
     forall f, f <> F_materialCount -> same_field f m m') /\
  (forall v, exists m',
     SetMeshes this v w = (Returns tt, with_obj this m' w) /\
     meshes m' = v /\ forall f, f <> F_meshes -> same_field f m m') /\
  (forall v, exists m',
     SetMaterials this v w = (Returns tt, with_obj this m' w) /\
     materials m' = v /\ forall f, f <> F_materials -> same_field f m m') /\
  (forall v, exists m',
     SetMeshMaterial_field this v w = (Returns tt, with_obj this m' w) /\
     meshMaterial m' = v /\
     forall f, f <> F_meshMaterial -> same_field f m m') /\
  (forall v, exists m',
     SetBoneCount this v w = (Returns tt, with_obj this m' w) /\
     boneCount m' = v /\ forall f, f <> F_boneCount -> same_field f m m') /\
  (forall v, exists m',
     SetBones this v w = (Returns tt, with_obj this m' w) /\
     bones m' = v /\ forall f, f <> F_bones -> same_field f m m') /\
  (forall v, exists m',
     SetBindPose this v w = (Returns tt, with_obj this m' w) /\
     bindPose m' = v /\ forall f, f <> F_bindPose -> same_field f m m').
Proof.
  intros Hm. split.
  - split_and!; apply GETTER_run; exact Hm.
  - split_and!; intros v; eexists;
      (split; [apply (write_run _ _ _ m Hm) |]);
      (split; [reflexivity |]); intros f Hf; frame_of f.
Qed.

(** ** The [const] methods *)

Lemma keeps_ret {A : Type} (v : A) : keeps_fields (mret v : M A).
Proof. intros w. reflexivity. Qed.

Lemma keeps_bind {A B : Type} (c : M A) (f : A -> M B) :
  keeps_fields c -> (forall v, keeps_fields (f v)) -> keeps_fields (c ≫= f).
Proof.
  intros Hc Hf w. unfold mbind, M_bind. specialize (Hc w).
  destruct (c w) as [[v | e |] w']; simpl in *.
  - rewrite Hf. exact Hc.
  - exact Hc.
  - exact Hc.
Qed.

Lemma keeps_load this : keeps_fields (load this).
Proof. intros w. unfold load. destruct (objs w !! this); reflexivity. Qed.

Lemma keeps_call {T : Type} (c : Call T) : keeps_fields (call c).
Proof. intros w. rewrite call_run. reflexivity. Qed.

Lemma keeps_read_mesh p i : keeps_fields (read_mesh p i).
Proof.
  intros w. unfold read_mesh. destruct (mesh_at (native w) p i); reflexivity.
Qed.

Lemma loop_step m i bounds temp :
  loop m i bounds temp
  = if decide (i < meshCount m) then
      mesh ← read_mesh (meshes m) i;
      loop m (i + 1)
        (fst (loop_body bounds temp
                (Mesh_GetTransformedBoundingBox mesh (transform m))))
        (snd (loop_body bounds temp
                (Mesh_GetTransformedBoundingBox mesh (transform m))))
    else mret bounds.
Proof. simp loop. destruct (decide (i < meshCount m)); reflexivity. Qed.

Lemma keeps_loop m i bounds temp : keeps_fields (loop m i bounds temp).
Proof.
  remember (Z.to_nat (meshCount m - i)) as k eqn:Hk.
  revert i bounds temp Hk.
  induction k as [k IH] using lt_wf_ind. intros i bounds temp Hk.
  rewrite loop_step. destruct (decide (i < meshCount m)) as [Hlt | Hge].
  - apply keeps_bind; [apply keeps_read_mesh |].
    intros mesh. eapply IH; [| reflexivity]. lia.
  - apply keeps_ret.
Qed.

Lemma keeps_GetTransformedBoundingBox this :
  keeps_fields (GetTransformedBoundingBox this).
Proof.
  unfold GetTransformedBoundingBox.
  apply keeps_bind; [apply keeps_load |]. intros m.
  destruct (decide (meshCount m > 0)); [| apply keeps_ret].
  apply keeps_bind; [apply keeps_read_mesh |]. intros mesh. apply keeps_loop.
Qed.

Ltac keeps_forward :=
  apply keeps_bind; [apply keeps_load | intros ?; apply keeps_call].

(** C8.  Both [Draw] overloads, both [DrawWires] overloads,
    [GetBoundingBox], [GetTransformedBoundingBox], [IsModelAnimationValid],
    [IsReady] and the conversion to [BoundingBox] leave the store of
    objects as they found it, from every world and however they end: no
    field of any [Model] changes. *)
Theorem const_methods_keep_fields (this : N) :
  (forall position scale tint, keeps_fields (Draw this position scale tint)) /\
  (forall position rotationAxis rotationAngle scale tint,
     keeps_fields (Draw_ex this position rotationAxis rotationAngle scale tint)) /\
  (forall position scale tint,
     keeps_fields (DrawWires this position scale tint)) /\
  (forall position rotationAxis rotationAngle scale tint,
     keeps_fields
       (DrawWires_ex this position rotationAxis rotationAngle scale tint)) /\
  keeps_fields (GetBoundingBox this) /\
  keeps_fields (GetTransformedBoundingBox this) /\
  (forall anim, keeps_fields (Model_IsModelAnimationValid this anim)) /\
  keeps_fields (IsReady this) /\
  keeps_fields (to_BoundingBox this).
Proof.
  split_and!; intros; try keeps_forward.
  apply keeps_GetTransformedBoundingBox.
Qed.

(** ** [GetTransformedBoundingBox] *)

(** C10.  On an object whose [meshCount] is zero or negative,
    [GetTransformedBoundingBox] returns the box with both corners at
    [(0, 0, 0)] and leaves the world, trace included, as it is: no
    [meshes[i]] is read, whatever [meshes] points to. *)
Theorem GetTransformedBoundingBox_empty (this : N) (w : World) (m : Model) :
  objs w !! this = Some m -> meshCount m <= 0 ->
  GetTransformedBoundingBox this w
  = (Returns (mkBoundingBox (mkVector3 f0 f0 f0) (mkVector3 f0 f0 f0)), w)
  /\ filter (fun e => is_ReadMesh e = true)
       (trace (snd (GetTransformedBoundingBox this w)))
     = filter (fun e => is_ReadMesh e = true) (trace w).
Proof.
  intros Hm Hcount.
  assert (GetTransformedBoundingBox this w
          = (Returns (mkBoundingBox (mkVector3 f0 f0 f0) (mkVector3 f0 f0 f0)), w))
    as Hrun.
  { unfold GetTransformedBoundingBox.
    erewrite bind_Returns by (apply load_run; exact Hm).
    destruct (decide (meshCount m > 0)) as [Hpos | _]; [lia | reflexivity]. }
  split; [exact Hrun | rewrite Hrun; reflexivity].
Qed.

Lemma loop_body_merge bounds temp tempBounds :
  fst (loop_body bounds temp tempBounds) = merge bounds tempBounds.
Proof. reflexivity. Qed.

Lemma read_mesh_run blk (array : list Mesh) i mesh os n t :
  mesh_mem n !! blk = Some array -> 0 <= i ->
  array !! Z.to_nat i = Some mesh ->
  read_mesh (Ptr blk) i (mkWorld os n t)
  = (Returns mesh, mkWorld os n (t ++ [ReadMesh (Ptr blk) i])).
Proof.
  intros Hblk Hi Hmesh. unfold read_mesh, mesh_at. simpl.
  destruct (decide (0 <= i)) as [_ | Hneg]; [| lia].
  rewrite Hblk. simpl. rewrite Hmesh. reflexivity.
Qed.

(** The loop entered at index [i] folds [merge] over the boxes of
    [meshes[i..meshCount-1]] and reads exactly those elements, in order. *)
Lemma loop_run m blk (array : list Mesh) os n :
  meshes m = Ptr blk -> mesh_mem n !! blk = Some array ->
  meshCount m <= Z.of_nat (length array) ->
  forall (k : nat) i bounds temp t,
    k = Z.to_nat (meshCount m - i) -> 0 <= i <= meshCount m ->
    loop m i bounds temp (mkWorld os n t)
    = (Returns (foldl merge bounds (drop (Z.to_nat i) (mesh_boxes m array))),
       mkWorld os n (t ++ reads (Ptr blk) i (meshCount m - i))).
Proof.
  intros Hptr Hblk Hlen k.
  induction k as [| k IH]; intros i bounds temp t Hk Hi; rewrite loop_step.
  - destruct (decide (i < meshCount m)) as [Hlt | _]; [lia |].
    assert (i = meshCount m) as -> by lia.
    rewrite drop_ge.
    2:{ unfold mesh_boxes. rewrite length_fmap, length_take. lia. }
    rewrite Z.sub_diag. unfold reads. simpl. rewrite app_nil_r. reflexivity.
  - destruct (decide (i < meshCount m)) as [Hlt | Hge]; [| lia].
    destruct (lookup_lt_is_Some_2 array (Z.to_nat i)) as [mesh Hmesh]; [lia |].
    rewrite Hptr. erewrite bind_Returns.
    2:{ eapply read_mesh_run; [exact Hblk | lia | exact Hmesh]. }
    rewrite (IH (i + 1)) by lia.
    rewrite loop_body_merge.
    assert (mesh_boxes m array !! Z.to_nat i
            = Some (Mesh_GetTransformedBoundingBox mesh (transform m))) as Hbox.
    { unfold mesh_boxes. rewrite list_lookup_fmap.
      rewrite lookup_take_lt by lia. rewrite Hmesh. reflexivity. }
    rewrite (drop_S _ _ _ Hbox).
    replace (Z.to_nat (i + 1)) with (S (Z.to_nat i)) by lia.
    unfold reads. rewrite (seqZ_cons i) by lia. simpl.
    rewrite <- app_assoc. simpl.
    replace (Z.succ i) with (i + 1) by lia.
    replace (Z.pred (meshCount m - i)) with (meshCount m - (i + 1)) by lia.
    reflexivity.
Qed.

(** The value and the reads.  Let the object hold [m] with
    [meshCount >= 1] and let [meshes] point to an array of at least
    [meshCount] meshes.  Then the list of per-mesh boxes of
    [meshes[0..meshCount-1]] is non-empty and [GetTransformedBoundingBox]
    returns the left fold of [merge] over it, started from the box of
    [meshes[0]], after reading [meshes[0]], ..., [meshes[meshCount-1]]
    once each. *)
Theorem GetTransformedBoundingBox_is_fold (this : N) (w : World) (m : Model)
  (blk : N) (array : list Mesh) :
  objs w !! this = Some m -> 1 <= meshCount m -> meshes m = Ptr blk ->
  mesh_mem (native w) !! blk = Some array ->
  meshCount m <= Z.of_nat (length array) ->
  exists (first : BoundingBox) (others : list BoundingBox),
    mesh_boxes m array = first :: others /\
    GetTransformedBoundingBox this w
    = (Returns (merged_boxes first others),
       mkWorld (objs w) (native w)
         (trace w ++ reads (Ptr blk) 0 (meshCount m))).
Proof.
  intros Hm Hcount Hptr Hblk Hlen.
  destruct (lookup_lt_is_Some_2 array 0%nat) as [mesh Hmesh]; [lia |].
  assert (mesh_boxes m array !! 0%nat
          = Some (Mesh_GetTransformedBoundingBox mesh (transform m))) as Hbox.
  { unfold mesh_boxes. rewrite list_lookup_fmap.
    rewrite lookup_take_lt by lia. rewrite Hmesh. reflexivity. }
  pose proof (drop_S _ _ _ Hbox) as Hsplit. rewrite drop_0 in Hsplit.
  eexists. eexists. split; [exact Hsplit |].
  unfold GetTransformedBoundingBox.
  erewrite bind_Returns by (apply load_run; exact Hm).
  destruct (decide (meshCount m > 0)) as [_ | Hneg]; [| lia].
  destruct w as [os n t]. simpl in *. rewrite Hptr.
  erewrite bind_Returns.
  2:{ eapply (read_mesh_run blk array 0); [exact Hblk | lia | exact Hmesh]. }
  rewrite (loop_run m blk array os n Hptr Hblk Hlen
             (Z.to_nat (meshCount m - 1)) 1) by lia.
  unfold merged_boxes, reads.
  rewrite (seqZ_cons 0) by lia. simpl. rewrite <- app_assoc. simpl.
  replace (Z.pred (meshCount m)) with (meshCount m - 1) by lia.
  reflexivity.
Qed.

(** *** The fold as a minimum and a maximum

    [merge] picks each coordinate with the header's own comparison, so the
    fold always returns coordinates that occur among the boxes.  It returns
    the least and the greatest of them when the coordinates are mutually
    comparable; the conditions are asked of the values at hand only, never
    of [float] as a whole, where NaN breaks them. *)
Section Pick_on.

Variable A : Type.
Variable before : A -> A -> bool.
Variable dom : A -> Prop.
Hypothesis irrefl_on : forall p, dom p -> before p p = false.
Hypothesis asym_on :
  forall p q, dom p -> dom q -> before p q = true -> before q p = false.
Hypothesis negtrans_on :
  forall p q s, dom p -> dom q -> dom s ->
    before q p = false -> before s q = false -> before s p = false.

Let pick (p q : A) : A := if before p q then p else q.

Lemma pick_dom p q : dom p -> dom q -> dom (pick p q).
Proof. intros Hp Hq. unfold pick. destruct (before p q); assumption. Qed.

Lemma foldl_pick_in (p : A) (l : list A) : foldl pick p l ∈ p :: l.
Proof.
  revert p. induction l as [| q l IH]; intros p; simpl.
  - apply list_elem_of_here.
  - specialize (IH (pick p q)).
    apply elem_of_cons in IH as [Heq | Hin].
    + rewrite Heq. unfold pick. destruct (before p q).
      * apply list_elem_of_here.
      * apply list_elem_of_further, list_elem_of_here.
    + do 2 apply list_elem_of_further. exact Hin.
Qed.

Lemma foldl_pick_dom (l : list A) :
  forall p, dom p -> Forall dom l -> dom (foldl pick p l).
Proof.
  induction l as [| q l IH]; intros p Hp Hl; simpl; [exact Hp |].
  apply Forall_cons in Hl as [Hq Hl].
  apply IH; [apply pick_dom; assumption | exact Hl].
Qed.

Lemma foldl_pick_least_on (l : list A) :
  forall p, dom p -> Forall dom l ->
    forall u, u ∈ p :: l -> before u (foldl pick p l) = false.
Proof.
  induction l as [| q l IH]; intros p Hp Hl u Hu; simpl.
  - apply list_elem_of_singleton in Hu. subst u. apply irrefl_on. exact Hp.
  - apply Forall_cons in Hl as [Hq Hl].
    assert (dom (pick p q)) as Hpq by (apply pick_dom; assumption).
    assert (dom (foldl pick (pick p q) l)) as Hv
      by (apply foldl_pick_dom; assumption).
    assert (before (pick p q) (foldl pick (pick p q) l) = false) as Hacc
      by (apply IH; [assumption | assumption | apply list_elem_of_here]).
    apply elem_of_cons in Hu as [-> | Hu];
      [| apply elem_of_cons in Hu as [-> | Hu]].
    + apply (negtrans_on _ (pick p q)); try assumption.
      unfold pick. destruct (before p q) eqn:Hbefore;
        [apply irrefl_on; exact Hp | exact Hbefore].
    + apply (negtrans_on _ (pick p q)); try assumption.
      unfold pick. destruct (before p q) eqn:Hbefore;
        [apply asym_on; assumption | apply irrefl_on; exact Hq].
    + apply IH; [assumption | assumption |].
      apply list_elem_of_further. exact Hu.
Qed.

End Pick_on.

Lemma foldl_proj {A B : Type} (f : A -> A -> A) (g : B -> B -> B)
  (proj : A -> B) :
  (forall a b, proj (f a b) = g (proj a) (proj b)) ->
  forall l a, proj (foldl f a l) = foldl g (proj a) (proj <$> l).
Proof.
  intros Hhom l. induction l as [| b l IH]; intros a; simpl;
    [reflexivity |]. rewrite IH, Hhom. reflexivity.
Qed.

Lemma comparable_onb_sound (vals : list float) :
  comparable_onb vals = true -> comparable_on vals.
Proof.
  unfold comparable_onb. intros Hall.
  assert (forall p, p ∈ vals ->
            flt p p = false /\
            forall q, q ∈ vals ->
              (flt p q = true -> flt q p = false) /\
              fgt p q = flt q p /\
              forall s, s ∈ vals ->
                flt q p = false -> flt s q = false -> flt s p = false)
    as Hcheck.
  { intros p Hp. apply list_elem_of_In in Hp.
    pose proof (proj1 (forallb_forall _ _) Hall p Hp) as Hp'.
    apply andb_true_iff in Hp' as [Hirr Hq']. split.
    - destruct (flt p p); [discriminate | reflexivity].
    - intros q Hq. apply list_elem_of_In in Hq.
      pose proof (proj1 (forallb_forall _ _) Hq' q Hq) as Hq''.
      apply andb_true_iff in Hq'' as [Hq'' Hs'].
      apply andb_true_iff in Hq'' as [Hasym Hconv]. split_and!.
      + intros Hpq. rewrite Hpq in Hasym. simpl in Hasym.
        destruct (flt q p); [discriminate | reflexivity].
      + apply Bool.eqb_prop. exact Hconv.
      + intros s Hs Hqp Hsq. apply list_elem_of_In in Hs.
        pose proof (proj1 (forallb_forall _ _) Hs' s Hs) as Hs''.
        rewrite Hqp, Hsq in Hs''. simpl in Hs''.
        destruct (flt s p); [discriminate | reflexivity]. }
  split_and!.
  - intros p Hp. exact (proj1 (Hcheck p Hp)).
  - intros p q Hp Hq. exact (proj1 (proj2 (Hcheck p Hp) q Hq)).
  - intros p q s Hp Hq Hs.
    exact (proj2 (proj2 (proj2 (Hcheck p Hp) q Hq)) s Hs).
  - intros p q Hp Hq. exact (proj1 (proj2 (proj2 (Hcheck p Hp) q Hq))).
Qed.

Lemma comparable_on_subset (vals vals' : list float) :
  (forall v, v ∈ vals' -> v ∈ vals) -> comparable_on vals ->
  comparable_on vals'.
Proof.
  intros Hsub (Hirr & Hasym & Hneg & Hconv). split_and!.
  - intros p Hp. apply Hirr. auto.
  - intros p q Hp Hq. apply Hasym; auto.
  - intros p q s Hp Hq Hs. apply Hneg; auto.
  - intros p q Hp Hq. apply Hconv; auto.
Qed.

(** On comparable values [>] is as good an order as [<]. *)
Lemma comparable_on_fgt (vals : list float) :
  comparable_on vals ->
  (forall p, p ∈ vals -> fgt p p = false) /\
  (forall p q, p ∈ vals -> q ∈ vals -> fgt p q = true -> fgt q p = false) /\
  (forall p q s, p ∈ vals -> q ∈ vals -> s ∈ vals ->
     fgt q p = false -> fgt s q = false -> fgt s p = false).
Proof.
  intros (Hirr & Hasym & Hneg & Hconv). split_and!.
  - intros p Hp. rewrite Hconv by assumption. apply Hirr. exact Hp.
  - intros p q Hp Hq. rewrite !Hconv by assumption. apply Hasym; assumption.
  - intros p q s Hp Hq Hs. rewrite !Hconv by assumption.
    intros Hpq Hqs. apply (Hneg s q p); assumption.
Qed.

Lemma coordinate_in_coordinates (proj : BoundingBox -> float) boxes :
  (forall box, proj box ∈ box_coordinates box) ->
  Forall (fun v => v ∈ coordinates boxes) (proj <$> boxes).
Proof.
  intros Hproj. apply Forall_forall. intros v Hv.
  apply list_elem_of_fmap in Hv as (box & -> & Hbox).
  unfold coordinates. apply list_elem_of_bind. exists box.
  split; [apply Hproj | exact Hbox].
Qed.

Lemma coordinate_attained_min (proj : BoundingBox -> float) first others :
  (forall acc box, proj (merge acc box) = fmin (proj acc) (proj box)) ->
  proj (merged_boxes first others) ∈ proj <$> first :: others.
Proof.
  intros Hhom. unfold merged_boxes.
  rewrite (foldl_proj merge fmin proj Hhom).
  apply (foldl_pick_in float flt).
Qed.

Lemma coordinate_attained_max (proj : BoundingBox -> float) first others :
  (forall acc box, proj (merge acc box) = fmax (proj acc) (proj box)) ->
  proj (merged_boxes first others) ∈ proj <$> first :: others.
Proof.
  intros Hhom. unfold merged_boxes.
  rewrite (foldl_proj merge fmax proj Hhom).
  apply (foldl_pick_in float fgt).
Qed.

Lemma coordinate_least_on (proj : BoundingBox -> float) first others :
  (forall acc box, proj (merge acc box) = fmin (proj acc) (proj box)) ->
  (forall box, proj box ∈ box_coordinates box) ->
  comparable_on (coordinates (first :: others)) ->
  forall box, box ∈ first :: others ->
              flt (proj box) (proj (merged_boxes first others)) = false.
Proof.
  intros Hhom Hproj (Hirr & Hasym & Hneg & _) box Hbox.
  pose proof (coordinate_in_coordinates proj (first :: others) Hproj) as Hdom.
  rewrite fmap_cons in Hdom. apply Forall_cons in Hdom as [Hfirst Hothers].
  unfold merged_boxes. rewrite (foldl_proj merge fmin proj Hhom).
  apply (foldl_pick_least_on float flt
           (fun v => v ∈ coordinates (first :: others)) Hirr Hasym Hneg
           (proj <$> others) (proj first) Hfirst Hothers).
  change (proj box ∈ proj <$> first :: others).
  apply list_elem_of_fmap_2. exact Hbox.
Qed.

Lemma coordinate_greatest_on (proj : BoundingBox -> float) first others :
  (forall acc box, proj (merge acc box) = fmax (proj acc) (proj box)) ->
  (forall box, proj box ∈ box_coordinates box) ->
  comparable_on (coordinates (first :: others)) ->
  forall box, box ∈ first :: others ->
              fgt (proj box) (proj (merged_boxes first others)) = false.
Proof.
  intros Hhom Hproj Hcomp box Hbox.
  destruct (comparable_on_fgt _ Hcomp) as (Hirr & Hasym & Hneg).
  pose proof (coordinate_in_coordinates proj (first :: others) Hproj) as Hdom.
  rewrite fmap_cons in Hdom. apply Forall_cons in Hdom as [Hfirst Hothers].
  unfold merged_boxes. rewrite (foldl_proj merge fmax proj Hhom).
  apply (foldl_pick_least_on float fgt
           (fun v => v ∈ coordinates (first :: others)) Hirr Hasym Hneg
           (proj <$> others) (proj first) Hfirst Hothers).
  change (proj box ∈ proj <$> first :: others).
  apply list_elem_of_fmap_2. exact Hbox.
Qed.

Ltac in_box_coordinates :=
  intros ?; unfold box_coordinates; repeat constructor.

(** Whatever the comparison does, each coordinate of the fold is that
    coordinate of one of the boxes. *)
Lemma merged_boxes_attained first others :
  attained (merged_boxes first others) (first :: others).
Proof.
  unfold attained. split_and!.
  - apply (coordinate_attained_min (fun b => x (min b))). reflexivity.
  - apply (coordinate_attained_min (fun b => y (min b))). reflexivity.
  - apply (coordinate_attained_min (fun b => z (min b))). reflexivity.
  - apply (coordinate_attained_max (fun b => x (max b))). reflexivity.
  - apply (coordinate_attained_max (fun b => y (max b))). reflexivity.
  - apply (coordinate_attained_max (fun b => z (max b))). reflexivity.
Qed.

(** On mutually comparable coordinates the fold encloses every box. *)
Lemma merged_boxes_encloses first others :
  comparable_on (coordinates (first :: others)) ->
  forall box, box ∈ first :: others -> encloses (merged_boxes first others) box.
Proof.
  intros Hcomp box Hbox. unfold encloses. split_and!.
  - apply (coordinate_least_on (fun b => x (min b)));
      [reflexivity | in_box_coordinates | exact Hcomp | exact Hbox].
  - apply (coordinate_least_on (fun b => y (min b)));
      [reflexivity | in_box_coordinates | exact Hcomp | exact Hbox].
  - apply (coordinate_least_on (fun b => z (min b)));
      [reflexivity | in_box_coordinates | exact Hcomp | exact Hbox].
  - apply (coordinate_greatest_on (fun b => x (max b)));
      [reflexivity | in_box_coordinates | exact Hcomp | exact Hbox].
  - apply (coordinate_greatest_on (fun b => y (max b)));
      [reflexivity | in_box_coordinates | exact Hcomp | exact Hbox].
  - apply (coordinate_greatest_on (fun b => z (max b)));
      [reflexivity | in_box_coordinates | exact Hcomp | exact Hbox].
Qed.

(** C1, as amended.  Let the object hold [m] with [meshCount >= 1] and let
    [meshes] point to an array of at least [meshCount] meshes.  Then
    [GetTransformedBoundingBox] returns the left fold, started from the
    box of [meshes[0]], of the merge that takes each [min] coordinate as
    [a < b ? a : b] and each [max] coordinate as [a > b ? a : b], over the
    per-mesh boxes of [meshes[0..meshCount-1]], after reading each of
    those meshes once.  Every coordinate of the result is that coordinate
    of one of the per-mesh boxes; and when the coordinates of those boxes
    are mutually comparable, the result is their componentwise minimum and
    maximum: it encloses every per-mesh box. *)
Theorem GetTransformedBoundingBox_fold_and_bounds (this : N) (w : World)
  (m : Model) (blk : N) (array : list Mesh) :
  objs w !! this = Some m -> 1 <= meshCount m -> meshes m = Ptr blk ->
  mesh_mem (native w) !! blk = Some array ->
  meshCount m <= Z.of_nat (length array) ->
  exists (first : BoundingBox) (others : list BoundingBox),
    mesh_boxes m array = first :: others /\
    GetTransformedBoundingBox this w
    = (Returns (merged_boxes first others),
       mkWorld (objs w) (native w)
         (trace w ++ reads (Ptr blk) 0 (meshCount m))) /\
    attained (merged_boxes first others) (first :: others) /\
    (comparable_on (coordinates (first :: others)) ->
     least_enclosing (merged_boxes first others) (first :: others)).
Proof.
  intros Hm Hcount Hptr Hblk Hlen.
  destruct (GetTransformedBoundingBox_is_fold this w m blk array
              Hm Hcount Hptr Hblk Hlen) as (first & others & Hsplit & Hrun).
  exists first, others. split_and!.
  - exact Hsplit.
  - exact Hrun.
  - apply merged_boxes_attained.
  - intros Hcomp. split.
    + apply merged_boxes_encloses. exact Hcomp.
    + apply merged_boxes_attained.
Qed.

End Model_hpp_properties.

(** * How the operations compose *)
Section Model_hpp_lifetimes.

Context `{Raylib_h} {E : Engine} {MH : Mesh_hpp}.

(** The world after the engine has answered [UnloadModel(m)]. *)
Lemma after_UnloadModel (m : Model) (w : World) :
  objs (snd (forwarded (UnloadModel m) w)) = objs w /\
  trace (snd (forwarded (UnloadModel m) w))
  = trace w ++ [EngineCall (UnloadModel m)].
Proof. split; reflexivity. Qed.

Lemma assign_move_null this other w dst src :
  this <> other -> objs w !! this = Some dst -> objs w !! other = Some src ->
  meshes dst = nullptr -> materials dst = nullptr ->
  assign_move this other w
  = (Returns this, with_obj other (moved_from src) (with_obj this src w)).
Proof.
  intros Hne Hdst Hsrc Hmeshes Hmaterials.
  destruct (assign_move_run _ _ _ _ _ Hne Hdst Hsrc) as (w1 & Hun & Hrun).
  rewrite (Unload_null _ _ _ Hdst Hmeshes Hmaterials) in Hun.
  injection Hun as <-. exact Hrun.
Qed.

Lemma assign_move_live this other w dst src :
  this <> other -> objs w !! this = Some dst -> objs w !! other = Some src ->
  live dst ->
  assign_move this other w
  = (Returns this,
     with_obj other (moved_from src)
       (with_obj this src (snd (forwarded (UnloadModel dst) w)))).
Proof.
  intros Hne Hdst Hsrc Hlive.
  destruct (assign_move_run _ _ _ _ _ Hne Hdst Hsrc) as (w1 & Hun & Hrun).
  rewrite (Unload_live _ _ _ Hdst Hlive) in Hun.
  injection Hun as <-. rewrite with_obj_twice in Hrun. exact Hrun.
Qed.

(** The store after either move does not depend on what the destination
    held. *)
Lemma objs_after_moves this other w dst src :
  this <> other -> objs w !! this = Some dst -> objs w !! other = Some src ->
  objs (snd (Model_move this other w))
  = <[other := moved_from src]> (<[this := src]> (objs w))
  /\ objs (snd (assign_move this other w))
     = <[other := moved_from src]> (<[this := src]> (objs w)).
Proof.
  intros Hne Hdst Hsrc. split.
  - rewrite (Model_move_run _ _ _ dst src) by assumption. reflexivity.
  - destruct (live_or_null dst) as [Hlive | [Hmeshes Hmaterials]].
    + rewrite (assign_move_live _ _ _ dst src) by assumption. reflexivity.
    + rewrite (assign_move_null _ _ _ dst src) by assumption. reflexivity.
Qed.

(** X1.  Between distinct objects, move construction makes no engine call
    and leaves the engine as it is.  Move assignment first releases what
    the destination held: it makes the one call [UnloadModel(dst)] when
    the destination holds meshes or materials, and when it holds neither
    it ends in the same world as move construction. *)
Theorem moves_engine_traffic (this other : N) (w : World) (dst src : Model) :
  this <> other -> objs w !! this = Some dst -> objs w !! other = Some src ->
  (trace (snd (Model_move this other w)) = trace w /\
   native (snd (Model_move this other w)) = native w) /\
  (live dst ->
   trace (snd (assign_move this other w))
   = trace w ++ [EngineCall (UnloadModel dst)]) /\
  (meshes dst = nullptr /\ materials dst = nullptr ->
   snd (assign_move this other w) = snd (Model_move this other w)).
Proof.
  intros Hne Hdst Hsrc. rewrite (Model_move_run _ _ _ dst src) by assumption.
  split_and!.
  - reflexivity.
  - reflexivity.
  - intros Hlive.
    rewrite (assign_move_live _ _ _ dst src) by assumption. reflexivity.
  - intros [Hmeshes Hmaterials].
    rewrite (assign_move_null _ _ _ dst src) by assumption. reflexivity.
Qed.

Lemma exclusive_after_move this other (os : gmap N Model) src :
  this <> other -> os !! other = Some src -> exclusive (delete this os) ->
  exclusive (<[other := moved_from src]> (<[this := src]> os)).
Proof.
  intros Hne Hsrc Hex a b ma mb Hab Ha Hb.
  assert (forall c mc, c <> this -> c <> other -> os !! c = Some mc ->
            (meshes mc <> nullptr -> meshes mc <> meshes src) /\
            (materials mc <> nullptr -> materials mc <> materials src))
    as Hother.
  { intros c mc Hct Hco Hc.
    apply (Hex c other mc src Hco); rewrite lookup_delete_ne by congruence;
      assumption. }
  assert (forall c mc, c <> this -> c <> other -> os !! c = Some mc ->
            (meshes src <> nullptr -> meshes src <> meshes mc) /\
            (materials src <> nullptr -> materials src <> materials mc))
    as Hother'.
  { intros c mc Hct Hco Hc.
    apply (Hex other c src mc); [congruence | |];
      rewrite lookup_delete_ne by congruence; assumption. }
  destruct (decide (a = other)) as [-> | Hao].
  - rewrite lookup_insert_eq in Ha. injection Ha as <-.
    split; intros Hnull; exfalso; apply Hnull; reflexivity.
  - rewrite lookup_insert_ne in Ha by congruence.
    destruct (decide (b = other)) as [-> | Hbo].
    + rewrite lookup_insert_eq in Hb. injection Hb as <-.
      split; intros Hnull; exact Hnull.
    + rewrite lookup_insert_ne in Hb by congruence.
      destruct (decide (a = this)) as [-> | Hat].
      * rewrite lookup_insert_eq in Ha. injection Ha as <-.
        rewrite lookup_insert_ne in Hb by congruence.
        apply (Hother' b mb); [congruence | assumption | assumption].
      * rewrite lookup_insert_ne in Ha by congruence.
        destruct (decide (b = this)) as [-> | Hbt].
        -- rewrite lookup_insert_eq in Hb. injection Hb as <-.
           apply (Hother a ma); assumption.
        -- rewrite lookup_insert_ne in Hb by congruence.
           apply (Hex a b ma mb Hab);
             rewrite lookup_delete_ne by congruence; assumption.
Qed.

(** X2.  Moves keep ownership exclusive.  If, leaving the destination
    aside (it is overwritten, or still raw storage), no two distinct
    wrappers share a non-null [meshes] or [materials] pointer, then after
    move construction and after move assignment no two wrappers of the
    whole store do; every object other than the two involved is as it
    was. *)
Theorem moves_keep_exclusive (this other : N) (w : World) (dst src : Model) :
  this <> other -> objs w !! this = Some dst -> objs w !! other = Some src ->
  exclusive (delete this (objs w)) ->
  (exclusive (objs (snd (Model_move this other w))) /\
   exclusive (objs (snd (assign_move this other w)))) /\
  (forall c, c <> this -> c <> other ->
     objs (snd (Model_move this other w)) !! c = objs w !! c /\
     objs (snd (assign_move this other w)) !! c = objs w !! c).
Proof.
  intros Hne Hdst Hsrc Hex.
  destruct (objs_after_moves this other w dst src Hne Hdst Hsrc) as [-> ->].
  split.
  - split; apply exclusive_after_move; assumption.
  - intros c Hct Hco. rewrite !lookup_insert_ne by congruence. auto.
Qed.

Lemma Model_destroy_live this w m :
  objs w !! this = Some m -> live m ->
  Model_destroy this w
  = (Returns tt,
     mkWorld (delete this (objs w))
       (snd (engine unit (UnloadModel m) (native w)))
       (trace w ++ [EngineCall (UnloadModel m)])).
Proof.
  intros Hm Hlive. unfold Model_destroy.
  erewrite bind_Returns by (apply Unload_live; eassumption).
  unfold release, with_obj, forwarded. simpl.
  rewrite delete_insert_eq. reflexivity.
Qed.

(** X3.  A model moved into a new object is released exactly once when
    both objects die.  After [Model(Model&& other)], the destructor of
    [other] makes no engine call and the destructor of the new object
    makes the single call [UnloadModel(src)]; both storages are gone. *)
Theorem move_then_destroy_unloads_once (this other : N) (w : World)
  (dst src : Model) :
  this <> other -> objs w !! this = Some dst -> objs w !! other = Some src ->
  live src ->
  exists w',
    (Model_move this other;; Model_destroy other;; Model_destroy this) w
    = (Returns tt, w') /\
    trace w' = trace w ++ [EngineCall (UnloadModel src)] /\
    objs w' !! this = None /\ objs w' !! other = None.
Proof.
  intros Hne Hdst Hsrc Hlive.
  destruct (moved_worlds_lookup this other src w Hne) as [Hthis Hother].
  eexists. split.
  - erewrite bind_Returns by (apply (Model_move_run _ _ _ dst src); assumption).
    erewrite bind_Returns.
    2:{ eapply Model_destroy_null; [exact Hother | reflexivity | reflexivity]. }
    apply (Model_destroy_live _ _ src); [| exact Hlive].
    simpl. rewrite lookup_delete_ne by congruence.
    rewrite lookup_insert_ne by congruence. apply lookup_insert_eq.
  - simpl. split_and!.
    + reflexivity.
    + apply lookup_delete_eq.
    + rewrite lookup_delete_ne by congruence. apply lookup_delete_eq.
Qed.

(** X4.  A raw copy shares what a move would transfer.  After
    [this = (const ::Model&) other] with [other] holding a live model
    [src], the two destructors call [UnloadModel(src)] twice, with the same
    pointers; what [this] held before is released by neither. *)
Theorem raw_copy_then_destroy_unloads_twice (this other : N) (w : World)
  (dst src : Model) :
  this <> other -> objs w !! this = Some dst -> objs w !! other = Some src ->
  live src ->
  exists w',
    (assign_raw this src;; Model_destroy this;; Model_destroy other) w
    = (Returns tt, w') /\
    trace w'
    = trace w ++ [EngineCall (UnloadModel src); EngineCall (UnloadModel src)].
Proof.
  intros Hne Hdst Hsrc Hlive. eexists. split.
  - erewrite bind_Returns.
    2:{ unfold assign_raw.
        erewrite bind_Returns by (eapply set_run; exact Hdst). reflexivity. }
    erewrite bind_Returns.
    2:{ apply (Model_destroy_live _ _ src); [apply with_obj_lookup | exact Hlive]. }
    apply (Model_destroy_live _ _ src); [| exact Hlive].
    simpl. rewrite lookup_delete_ne by congruence.
    rewrite lookup_insert_ne by congruence. exact Hsrc.
  - simpl. rewrite <- app_assoc. reflexivity.
Qed.

(** X5.  [Load] never releases.  Whatever the wrapper holds, each [Load]
    makes exactly two engine calls, the load and [IsModelReady] on its
    result, in this order; the number of [UnloadModel] calls in the trace
    does not change, so a model held before is overwritten, not unloaded. *)
Theorem Load_never_unloads (this : N) (w : World) (held : Model) :
  objs w !! this = Some held ->
  (forall fileName : string,
     trace (snd (Load_fileName this fileName w))
     = trace w ++ [EngineCall (LoadModel fileName);
                   EngineCall (IsModelReady
                     (fst (engine Model (LoadModel fileName) (native w))))]
     /\ unloads (trace (snd (Load_fileName this fileName w)))
        = unloads (trace w))
  /\
  (forall mesh : Mesh,
     trace (snd (Load_mesh this mesh w))
     = trace w ++ [EngineCall (LoadModelFromMesh mesh);
                   EngineCall (IsModelReady
                     (fst (engine Model (LoadModelFromMesh mesh) (native w))))]
     /\ unloads (trace (snd (Load_mesh this mesh w))) = unloads (trace w)).
Proof.
  intros Hheld. split.
  - intros fileName. unfold Load_fileName.
    rewrite (Load_run _ _ _ _ held Hheld). simpl.
    split; [reflexivity |]. rewrite unloads_app. simpl. apply Nat.add_0_r.
  - intros mesh. unfold Load_mesh.
    rewrite (Load_run _ _ _ _ held Hheld). simpl.
    split; [reflexivity |]. rewrite unloads_app. simpl. apply Nat.add_0_r.
Qed.

(** X6.  [Unload] resets two fields only.  Afterwards [transform], the
    three counts, [meshMaterial], [bones] and [bindPose] are what they
    were, and no other object has changed. *)
Theorem Unload_keeps_other_fields (this : N) (w : World) (m : Model) :
  objs w !! this = Some m ->
  exists m',
    objs (snd (Unload this w)) !! this = Some m' /\
    (forall f, f <> F_meshes -> f <> F_materials -> same_field f m m') /\
    (forall a, a <> this -> objs (snd (Unload this w)) !! a = objs w !! a).
Proof.
  intros Hm. destruct (live_or_null m) as [Hlive | [Hmeshes Hmaterials]].
  - rewrite (Unload_live _ _ _ Hm Hlive).
    exists (assign_materials nullptr (assign_meshes nullptr m)). split_and!.
    + apply with_obj_lookup.
    + intros f Hf1 Hf2. destruct f; try reflexivity; congruence.
    + intros a Ha. simpl. apply lookup_insert_ne. congruence.
  - rewrite (Unload_null _ _ _ Hm Hmeshes Hmaterials). exists m. split_and!.
    + exact Hm.
    + intros f _ _. destruct f; reflexivity.
    + reflexivity.
Qed.

(** X7.  The destructor absorbs a manual [Unload]: releasing by hand and
    then destroying the object ends in the same world, with the same
    engine calls, as destroying it directly. *)
Theorem destroy_absorbs_Unload (this : N) (w : World) (m : Model) :
  objs w !! this = Some m ->
  (Unload this;; Model_destroy this) w = Model_destroy this w.
Proof.
  intros Hm. destruct (live_or_null m) as [Hlive | [Hmeshes Hmaterials]].
  - erewrite bind_Returns by (apply Unload_live; eassumption).
    erewrite Model_destroy_null;
      [| apply with_obj_lookup | reflexivity | reflexivity].
    rewrite (Model_destroy_live _ _ m Hm Hlive).
    unfold with_obj, forwarded. simpl. rewrite delete_insert_eq. reflexivity.
  - erewrite bind_Returns by (eapply Unload_null; eassumption). reflexivity.
Qed.

(** X8.  Assigning a wrapper its own value through [const ::Model&]
    changes nothing: no field, no engine call. *)
Theorem raw_self_assignment_is_identity (this : N) (w : World) (m : Model) :
  objs w !! this = Some m -> assign_raw this m w = (Returns this, w).
Proof.
  intros Hm. unfold assign_raw.
  erewrite bind_Returns by (eapply set_run; exact Hm).
  rewrite (with_obj_same _ _ _ Hm). reflexivity.
Qed.

End Model_hpp_lifetimes.

(** * More on [GetTransformedBoundingBox] *)
Section Model_hpp_bounds.

Context `{Raylib_h} {E : Engine} {MH : Mesh_hpp}.

(** The value computed from a valid array, as in C1. *)
Lemma GetTransformedBoundingBox_value this w m blk (array : list Mesh) :
  objs w !! this = Some m -> 1 <= meshCount m -> meshes m = Ptr blk ->
  mesh_mem (native w) !! blk = Some array ->
  meshCount m <= Z.of_nat (length array) ->
  exists first others,
    mesh_boxes m array = first :: others /\
    fst (GetTransformedBoundingBox this w) = Returns (merged_boxes first others).
Proof.
  intros Hm Hcount Hptr Hblk Hlen.
  destruct (lookup_lt_is_Some_2 array 0%nat) as [mesh Hmesh]; [lia |].
  assert (mesh_boxes m array !! 0%nat
          = Some (Mesh_GetTransformedBoundingBox mesh (transform m))) as Hbox.
  { unfold mesh_boxes. rewrite list_lookup_fmap.
    rewrite lookup_take_lt by lia. rewrite Hmesh. reflexivity. }
  pose proof (drop_S _ _ _ Hbox) as Hsplit. rewrite drop_0 in Hsplit.
  eexists. eexists. split; [exact Hsplit |].
  unfold GetTransformedBoundingBox.
  erewrite bind_Returns by (apply load_run; exact Hm).
  destruct (decide (meshCount m > 0)) as [_ | Hneg]; [| lia].
  destruct w as [os n t]. simpl in *. rewrite Hptr.
  erewrite bind_Returns.
  2:{ eapply (read_mesh_run blk array 0); [exact Hblk | lia | exact Hmesh]. }
  rewrite (loop_run m blk array os n Hptr Hblk Hlen
             (Z.to_nat (meshCount m - 1)) 1) by lia.
  reflexivity.
Qed.

Lemma GetTransformedBoundingBox_no_mesh this w m :
  objs w !! this = Some m -> meshCount m <= 0 ->
  GetTransformedBoundingBox this w = (Returns zero_box, w).
Proof.
  intros Hm Hcount. unfold GetTransformedBoundingBox.
  erewrite bind_Returns by (apply load_run; exact Hm).
  destruct (decide (meshCount m > 0)) as [Hpos | _]; [lia | reflexivity].
Qed.

Lemma GetTransformedBoundingBox_null_meshes this w m :
  objs w !! this = Some m -> 1 <= meshCount m -> meshes m = nullptr ->
  GetTransformedBoundingBox this w
  = (Undefined,
     mkWorld (objs w) (native w) (trace w ++ [ReadMesh nullptr 0])).
Proof.
  intros Hm Hcount Hnull. unfold GetTransformedBoundingBox.
  erewrite bind_Returns by (apply load_run; exact Hm).
  destruct (decide (meshCount m > 0)) as [_ | Hneg]; [| lia].
  rewrite Hnull. reflexivity.
Qed.

(** X9.  [Unload] leaves [meshCount] as it was, so on an object with
    [meshCount >= 1] a call of [GetTransformedBoundingBox] after [Unload]
    passes the guard [meshCount > 0] and reads [meshes[0]] through the null
    pointer: the behaviour is undefined. *)
Theorem GetTransformedBoundingBox_after_Unload (this : N) (w : World)
  (m : Model) :
  objs w !! this = Some m -> 1 <= meshCount m ->
  fst ((Unload this;; GetTransformedBoundingBox this) w) = Undefined /\
  last (trace (snd ((Unload this;; GetTransformedBoundingBox this) w)))
  = Some (ReadMesh nullptr 0).
Proof.
  intros Hm Hcount. destruct (live_or_null m) as [Hlive | [Hmeshes Hmaterials]].
  - erewrite bind_Returns by (apply Unload_live; eassumption).
    erewrite GetTransformedBoundingBox_null_meshes;
      [| apply with_obj_lookup | exact Hcount | reflexivity].
    simpl. split; [reflexivity | apply last_snoc].
  - erewrite bind_Returns by (eapply Unload_null; eassumption).
    erewrite GetTransformedBoundingBox_null_meshes by eassumption.
    simpl. split; [reflexivity | apply last_snoc].
Qed.

(** X10.  A moved-from object can still be asked for its box: after move
    construction or move assignment out of [other],
    [other.GetTransformedBoundingBox()] returns the box at the origin and
    leaves the world, trace included, as it is. *)
Theorem GetTransformedBoundingBox_of_moved_from (this other : N) (w : World)
  (dst src : Model) :
  this <> other -> objs w !! this = Some dst -> objs w !! other = Some src ->
  (exists w', Model_move this other w = (Returns tt, w') /\
              GetTransformedBoundingBox other w' = (Returns zero_box, w'))
  /\
  (exists w', assign_move this other w = (Returns this, w') /\
              GetTransformedBoundingBox other w' = (Returns zero_box, w')).
Proof.
  intros Hne Hdst Hsrc. split.
  - eexists. split; [apply (Model_move_run _ _ _ dst src); assumption |].
    eapply GetTransformedBoundingBox_no_mesh;
      [apply with_obj_lookup | simpl; lia].
  - destruct (assign_move_run _ _ _ _ _ Hne Hdst Hsrc) as (w1 & _ & Hrun).
    eexists. split; [exact Hrun |].
    eapply GetTransformedBoundingBox_no_mesh;
      [apply with_obj_lookup | simpl; lia].
Qed.

Lemma only_reads_ret {A : Type} (v : A) : only_reads (mret v : M A).
Proof.
  intros w. split; [reflexivity |]. exists []. split; [| constructor].
  simpl. rewrite app_nil_r. reflexivity.
Qed.

Lemma only_reads_bind {A B : Type} (c : M A) (f : A -> M B) :
  only_reads c -> (forall v, only_reads (f v)) -> only_reads (c ≫= f).
Proof.
  intros Hc Hf w. unfold mbind, M_bind.
  destruct (Hc w) as (Hn & rs & Ht & Hrs).
  destruct (c w) as [[v | e |] w1]; simpl in *.
  - destruct (Hf v w1) as (Hn' & rs' & Ht' & Hrs').
    split; [congruence |]. exists (rs ++ rs'). split.
    + rewrite Ht', Ht, app_assoc. reflexivity.
    + apply Forall_app. split; assumption.
  - split; [exact Hn |]. exists rs. split; assumption.
  - split; [exact Hn |]. exists rs. split; assumption.
Qed.

Lemma only_reads_load this : only_reads (load this).
Proof.
  intros w. unfold load.
  destruct (objs w !! this); (split; [reflexivity |]); exists [];
    (split; [simpl; rewrite app_nil_r; reflexivity | constructor]).
Qed.

Lemma only_reads_read_mesh p i : only_reads (read_mesh p i).
Proof.
  intros w. unfold read_mesh.
  destruct (mesh_at (native w) p i); (split; [reflexivity |]);
    exists [ReadMesh p i]; (split; [reflexivity |]);
    repeat constructor.
Qed.

Lemma only_reads_loop m i bounds temp : only_reads (loop m i bounds temp).
Proof.
  remember (Z.to_nat (meshCount m - i)) as k eqn:Hk.
  revert i bounds temp Hk.
  induction k as [k IH] using lt_wf_ind. intros i bounds temp Hk.
  rewrite loop_step. destruct (decide (i < meshCount m)) as [Hlt | Hge].
  - apply only_reads_bind; [apply only_reads_read_mesh |].
    intros mesh. eapply IH; [| reflexivity]. lia.
  - apply only_reads_ret.
Qed.

(** X11.  [GetTransformedBoundingBox] never calls the engine.  From every
    world and however it ends, the engine state is what it was and the
    events added to the trace are reads of [meshes[i]] only. *)
Theorem GetTransformedBoundingBox_only_reads (this : N) :
  only_reads (GetTransformedBoundingBox this).
Proof.
  unfold GetTransformedBoundingBox.
  apply only_reads_bind; [apply only_reads_load |]. intros m.
  destruct (decide (meshCount m > 0)); [| apply only_reads_ret].
  apply only_reads_bind; [apply only_reads_read_mesh |]. intros mesh.
  apply only_reads_loop.
Qed.

(** *** A coordinate that compares with nothing *)

Lemma foldl_forgets {A : Type} (g : A -> A -> A) (n a : A) (pre post : list A) :
  (forall p, g p n = n) -> foldl g a (pre ++ n :: post) = foldl g n post.
Proof. intros Hn. rewrite foldl_app. simpl. rewrite Hn. reflexivity. Qed.

Lemma merged_coordinate_forgets (proj : BoundingBox -> float)
  (g : float -> float -> float) first others pre nb post :
  (forall acc box, proj (merge acc box) = g (proj acc) (proj box)) ->
  (forall p, g p (proj nb) = proj nb) ->
  first :: others = pre ++ nb :: post ->
  proj (merged_boxes first others) = foldl g (proj nb) (proj <$> post).
Proof.
  intros Hhom Hn Hsplit. unfold merged_boxes.
  rewrite (foldl_proj merge g proj Hhom).
  destruct pre as [| p0 pre]; simpl in Hsplit; injection Hsplit as -> ->.
  - reflexivity.
  - rewrite fmap_app, fmap_cons. apply foldl_forgets. exact Hn.
Qed.

Lemma fmin_keeps_unordered n : (forall p, flt p n = false) -> forall p, fmin p n = n.
Proof. intros Hn p. unfold fmin. rewrite Hn. reflexivity. Qed.

Lemma fmax_keeps_unordered n : (forall p, fgt p n = false) -> forall p, fmax p n = n.
Proof. intros Hn p. unfold fmax. rewrite Hn. reflexivity. Qed.

(** X12.  A coordinate that no number compares below (for [max]: above),
    as NaN does, makes the loop forget that coordinate of every earlier
    mesh.  If the per-mesh boxes are [pre ++ nb :: post] and a coordinate
    of [nb] is such a value, that coordinate of the result is the fold over
    [nb] and [post] alone; the meshes of [pre] do not count. *)
Theorem GetTransformedBoundingBox_forgets_before_NaN (this : N) (w : World)
  (m : Model) (blk : N) (array : list Mesh) (pre post : list BoundingBox)
  (nb : BoundingBox) :
  objs w !! this = Some m -> 1 <= meshCount m -> meshes m = Ptr blk ->
  mesh_mem (native w) !! blk = Some array ->
  meshCount m <= Z.of_nat (length array) ->
  mesh_boxes m array = pre ++ nb :: post ->
  exists result,
    fst (GetTransformedBoundingBox this w) = Returns result /\
    ((forall p, flt p (x (min nb)) = false) ->
     x (min result) = foldl fmin (x (min nb)) ((fun b => x (min b)) <$> post)) /\
    ((forall p, flt p (y (min nb)) = false) ->
     y (min result) = foldl fmin (y (min nb)) ((fun b => y (min b)) <$> post)) /\
    ((forall p, flt p (z (min nb)) = false) ->
     z (min result) = foldl fmin (z (min nb)) ((fun b => z (min b)) <$> post)) /\
    ((forall p, fgt p (x (max nb)) = false) ->
     x (max result) = foldl fmax (x (max nb)) ((fun b => x (max b)) <$> post)) /\
    ((forall p, fgt p (y (max nb)) = false) ->
     y (max result) = foldl fmax (y (max nb)) ((fun b => y (max b)) <$> post)) /\
    ((forall p, fgt p (z (max nb)) = false) ->
     z (max result) = foldl fmax (z (max nb)) ((fun b => z (max b)) <$> post)).
Proof.
  intros Hm Hcount Hptr Hblk Hlen Hboxes.
  destruct (GetTransformedBoundingBox_value this w m blk array
              Hm Hcount Hptr Hblk Hlen) as (first & others & Hsplit & Hrun).
  rewrite Hboxes in Hsplit. symmetry in Hsplit.
  exists (merged_boxes first others). split; [exact Hrun |].
  split_and!; intros Hn.
  - apply (merged_coordinate_forgets (fun b => x (min b)) fmin _ _ pre);
      [reflexivity | apply fmin_keeps_unordered, Hn | exact Hsplit].
  - apply (merged_coordinate_forgets (fun b => y (min b)) fmin _ _ pre);
      [reflexivity | apply fmin_keeps_unordered, Hn | exact Hsplit].
  - apply (merged_coordinate_forgets (fun b => z (min b)) fmin _ _ pre);
      [reflexivity | apply fmin_keeps_unordered, Hn | exact Hsplit].
  - apply (merged_coordinate_forgets (fun b => x (max b)) fmax _ _ pre);
      [reflexivity | apply fmax_keeps_unordered, Hn | exact Hsplit].
  - apply (merged_coordinate_forgets (fun b => y (max b)) fmax _ _ pre);
      [reflexivity | apply fmax_keeps_unordered, Hn | exact Hsplit].
  - apply (merged_coordinate_forgets (fun b => z (max b)) fmax _ _ pre);
      [reflexivity | apply fmax_keeps_unordered, Hn | exact Hsplit].
Qed.

End Model_hpp_bounds.

(** * [GetTransformedBoundingBox] and the order of the meshes *)
Section Model_hpp_ordered.

Context `{Raylib_h} {E : Engine} {MH : Mesh_hpp}.

(** A box that encloses all of [boxes] encloses every box whose
    coordinates are attained among them. *)
Lemma encloses_attained (outer inner : BoundingBox) boxes :
  (forall box, box ∈ boxes -> encloses outer box) ->
  attained inner boxes -> encloses outer inner.
Proof.
  intros Henc (Hx & Hy & Hz & HX & HY & HZ). unfold encloses. split_and!.
  - apply list_elem_of_fmap in Hx as (box & -> & Hbox).
    apply (Henc box Hbox).
  - apply list_elem_of_fmap in Hy as (box & -> & Hbox).
    apply (Henc box Hbox).
  - apply list_elem_of_fmap in Hz as (box & -> & Hbox).
    apply (Henc box Hbox).
  - apply list_elem_of_fmap in HX as (box & -> & Hbox).
    apply (Henc box Hbox).
  - apply list_elem_of_fmap in HY as (box & -> & Hbox).
    apply (Henc box Hbox).
  - apply list_elem_of_fmap in HZ as (box & -> & Hbox).
    apply (Henc box Hbox).
Qed.

Lemma attained_Permutation (outer : BoundingBox) boxes boxes' :
  boxes ≡ₚ boxes' -> attained outer boxes -> attained outer boxes'.
Proof.
  intros Hperm (Hx & Hy & Hz & HX & HY & HZ). unfold attained.
  rewrite <- !Hperm. split_and!; assumption.
Qed.

(** X14.  When the coordinates of the per-mesh boxes are mutually
    comparable, the order of the meshes matters only up to what the
    comparison cannot tell apart: for two worlds whose mesh arrays of
    length [meshCount] are permutations of each other, both calls return a
    box, and no coordinate of either box compares below (for [max]: above)
    that coordinate of the other. *)
Theorem GetTransformedBoundingBox_order_independent (this : N) (w w' : World)
  (m : Model) (blk : N) (array array' : list Mesh) :
  objs w !! this = Some m -> objs w' !! this = Some m ->
  1 <= meshCount m -> meshes m = Ptr blk ->
  mesh_mem (native w) !! blk = Some array ->
  mesh_mem (native w') !! blk = Some array' ->
  meshCount m = Z.of_nat (length array) ->
  array ≡ₚ array' ->
  comparable_on (coordinates (mesh_boxes m array)) ->
  exists r r',
    fst (GetTransformedBoundingBox this w) = Returns r /\
    fst (GetTransformedBoundingBox this w') = Returns r' /\
    encloses r r' /\ encloses r' r.
Proof.
  intros Hm Hm' Hcount Hptr Hblk Hblk' Hlen Hperm Hcomp.
  assert (length array' = length array) as Hlen'
    by (symmetry; apply Permutation_length; exact Hperm).
  destruct (GetTransformedBoundingBox_value this w m blk array
              Hm Hcount Hptr Hblk ltac:(lia))
    as (first & others & Hsplit & Hrun).
  destruct (GetTransformedBoundingBox_value this w' m blk array'
              Hm' Hcount Hptr Hblk' ltac:(lia))
    as (first' & others' & Hsplit' & Hrun').
  assert (first :: others ≡ₚ first' :: others') as Hboxes.
  { rewrite <- Hsplit, <- Hsplit'. unfold mesh_boxes.
    rewrite !take_ge by lia. apply fmap_Permutation. exact Hperm. }
  rewrite Hsplit in Hcomp.
  assert (comparable_on (coordinates (first' :: others'))) as Hcomp'.
  { apply (comparable_on_subset (coordinates (first :: others)));
      [| exact Hcomp].
    intros v Hv. unfold coordinates in *.
    apply list_elem_of_bind in Hv as (box & Hv & Hbox).
    apply list_elem_of_bind. exists box. split; [exact Hv |].
    rewrite Hboxes. exact Hbox. }
  exists (merged_boxes first others), (merged_boxes first' others').
  split; [exact Hrun |]. split; [exact Hrun' |]. split.
  - apply (encloses_attained _ _ (first :: others)).
    + apply merged_boxes_encloses. exact Hcomp.
    + apply (attained_Permutation _ (first' :: others'));
        [symmetry; exact Hboxes | apply merged_boxes_attained].
  - apply (encloses_attained _ _ (first' :: others')).
    + apply merged_boxes_encloses. exact Hcomp'.
    + apply (attained_Permutation _ (first :: others));
        [exact Hboxes | apply merged_boxes_attained].
Qed.

End Model_hpp_ordered.

(** * The properties on the concrete platform *)
Section Demo_runs.

#[local] Existing Instance demo_h.
#[local] Existing Instance demo_engine.
#[local] Existing Instance demo_mesh_hpp.

Lemma GetTransformedBoundingBox_is_fold_witness :
  objs demo_world !! 1%N = Some demo_loaded /\
  exists first others,
    mesh_boxes demo_loaded demo_meshes = first :: others /\
    GetTransformedBoundingBox 1 demo_world
    = (Returns (merged_boxes first others),
       mkWorld (objs demo_world) (native demo_world)
         (trace demo_world ++ reads (Ptr 7) 0 (meshCount demo_loaded))).
Proof.
  split; [reflexivity |].
  apply (GetTransformedBoundingBox_is_fold 1 demo_world demo_loaded 7
           demo_meshes).
  - reflexivity.
  - simpl. lia.
  - reflexivity.
  - reflexivity.
  - simpl. lia.
Defined.

Lemma Load_throws_iff_not_ready_witness :
  objs demo_world !! 2%N = Some demo_empty /\
  (exists w',
     Load_fileName 2 "missing.obj" demo_world
     = (Throws (mkRaylibException "Failed to load Model from missing.obj"), w'))
  /\
  (exists w',
     Load_fileName 2 "ship.obj" demo_world = (Returns tt, w') /\
     objs w' !! 2%N = Some demo_loaded).
Proof.
  assert (objs demo_world !! 2%N = Some demo_empty) as Hobj by reflexivity.
  destruct (Load_throws_iff_not_ready 2 demo_world demo_empty Hobj)
    as [Hfile _].
  split; [exact Hobj |]. split.
  - destruct (Hfile "missing.obj") as (w' & Hrun & _). exists w'. exact Hrun.
  - destruct (Hfile "ship.obj") as (w' & Hrun & _ & Hfields). exists w'.
    split; [exact Hrun | exact Hfields].
Defined.

Lemma move_transfers_and_nulls_witness :
  2%N <> 1%N /\
  objs demo_world !! 2%N = Some demo_empty /\
  objs demo_world !! 1%N = Some demo_loaded /\
  (exists w', Model_move 2 1 demo_world = (Returns tt, w') /\
              objs w' !! 2%N = Some demo_loaded /\
              exists o, objs w' !! 1%N = Some o /\ nulled_out o) /\
  (exists w', assign_move 2 1 demo_world = (Returns 2%N, w') /\
              objs w' !! 2%N = Some demo_loaded /\
              exists o, objs w' !! 1%N = Some o /\ nulled_out o).
Proof.
  assert (2%N <> 1%N) as Hne by discriminate.
  assert (objs demo_world !! 2%N = Some demo_empty) as Hdst by reflexivity.
  assert (objs demo_world !! 1%N = Some demo_loaded) as Hsrc by reflexivity.
  split; [exact Hne |]. split; [exact Hdst |]. split; [exact Hsrc |].
  exact (move_transfers_and_nulls 2 1 demo_world demo_empty demo_loaded
           Hne Hdst Hsrc).
Defined.

Lemma Unload_at_most_once_witness :
  objs demo_world !! 3%N = Some (assign_materials (Ptr 5) demo_empty) /\
  exists w' m',
    Unload 3 demo_world = (Returns tt, w') /\
    objs w' !! 3%N = Some m' /\ meshes m' = nullptr /\ materials m' = nullptr /\
    (Unload 3;; Unload 3) demo_world = (Returns tt, w') /\
    (unloads (trace w') <= unloads (trace demo_world) + 1)%nat.
Proof.
  assert (objs demo_world !! 3%N = Some (assign_materials (Ptr 5) demo_empty))
    as Hobj by reflexivity.
  split; [exact Hobj |].
  destruct (Unload_at_most_once 3 demo_world _ Hobj)
    as (w' & m' & Hrun & _ & _ & Hm' & Hmeshes & Hmaterials & _ & Htwice & Hcount).
  exists w', m'. repeat (split; [assumption |]). assumption.
Defined.

Lemma moved_from_never_unloads_witness :
  2%N <> 1%N /\
  objs demo_world !! 2%N = Some demo_empty /\
  objs demo_world !! 1%N = Some demo_loaded /\
  (exists w', Model_move 2 1 demo_world = (Returns tt, w') /\
              Unload_times 5 1 w' = (Returns tt, w') /\
              exists w'', Model_destroy 1 w' = (Returns tt, w'') /\
                          trace w'' = trace w' /\ native w'' = native w') /\
  (exists w', assign_move 2 1 demo_world = (Returns 2%N, w') /\
              Unload_times 5 1 w' = (Returns tt, w') /\
              exists w'', Model_destroy 1 w' = (Returns tt, w'') /\
                          trace w'' = trace w' /\ native w'' = native w').
Proof.
  assert (2%N <> 1%N) as Hne by discriminate.
  assert (objs demo_world !! 2%N = Some demo_empty) as Hdst by reflexivity.
  assert (objs demo_world !! 1%N = Some demo_loaded) as Hsrc by reflexivity.
  split; [exact Hne |]. split; [exact Hdst |]. split; [exact Hsrc |].
  exact (moved_from_never_unloads 2 1 demo_world demo_empty demo_loaded 5
           Hne Hdst Hsrc).
Defined.

Lemma methods_forward_witness :
  objs demo_world !! 1%N = Some demo_loaded /\
  GetBoundingBox 1 demo_world = forwarded (GetModelBoundingBox demo_loaded) demo_world /\
  IsReady 1 demo_world = forwarded (IsModelReady demo_loaded) demo_world /\
  to_BoundingBox 1 demo_world = GetBoundingBox 1 demo_world.
Proof.
  assert (objs demo_world !! 1%N = Some demo_loaded) as Hobj by reflexivity.
  destruct (methods_forward 1 demo_world demo_loaded Hobj)
    as (Hbox & Hready & _ & _ & _ & Hconv & _).
  repeat (split; [assumption |]). assumption.
Defined.

Lemma accessors_get_and_set_witness :
  objs demo_world !! 1%N = Some demo_loaded /\
  GetMeshCount 1 demo_world = (Returns 3, demo_world) /\
  exists m', SetMeshCount 1 0 demo_world = (Returns tt, with_obj 1 m' demo_world) /\
             meshCount m' = 0 /\
             forall f, f <> F_meshCount -> same_field f demo_loaded m'.
Proof.
  assert (objs demo_world !! 1%N = Some demo_loaded) as Hobj by reflexivity.
  destruct (accessors_get_and_set 1 demo_world demo_loaded Hobj)
    as ((_ & Hget & _) & _ & Hset & _).
  split; [exact Hobj |]. split; [exact Hget | exact (Hset 0)].
Defined.

Lemma raw_copy_is_shallow_witness :
  objs demo_world !! 1%N = Some demo_loaded /\
  exists w', assign_raw 1 demo_empty demo_world = (Returns 1%N, w') /\
             objs w' !! 1%N = Some demo_empty /\
             trace w' = trace demo_world /\ native w' = native demo_world /\
             unloads (trace w') = unloads (trace demo_world).
Proof.
  assert (objs demo_world !! 1%N = Some demo_loaded) as Hobj by reflexivity.
  split; [exact Hobj |].
  exact (proj2 (raw_copy_is_shallow 1 demo_world demo_loaded demo_empty Hobj)).
Defined.

Lemma GetTransformedBoundingBox_empty_witness :
  objs demo_world !! 2%N = Some demo_empty /\
  meshCount demo_empty <= 0 /\
  GetTransformedBoundingBox 2 demo_world
  = (Returns (mkBoundingBox (mkVector3 f0 f0 f0) (mkVector3 f0 f0 f0)),
     demo_world).
Proof.
  assert (objs demo_world !! 2%N = Some demo_empty) as Hobj by reflexivity.
  assert (meshCount demo_empty <= 0) as Hcount by (simpl; lia).
  split; [exact Hobj |]. split; [exact Hcount |].
  exact (proj1 (GetTransformedBoundingBox_empty 2 demo_world demo_empty
                  Hobj Hcount)).
Defined.

(** The three boxes of the demo, folded by the header: NaN is dropped as
    soon as a number follows it. *)
Example demo_GetTransformedBoundingBox :
  fst (GetTransformedBoundingBox 1 demo_world)
  = Returns (mkBoundingBox
               (mkVector3 PrimFloat.one PrimFloat.one PrimFloat.one)
               (mkVector3 (PrimFloat.add PrimFloat.two PrimFloat.one)
                          (PrimFloat.add PrimFloat.two PrimFloat.one)
                          PrimFloat.infinity)).
Proof. vm_compute. reflexivity. Qed.

(** With NaN among the coordinates the fold depends on the order of the
    meshes: NaN last stays, NaN first is replaced. *)
Example demo_NaN_last :
  PrimFloat.is_nan (fold_left fmin [PrimFloat.nan] PrimFloat.two) = true
  /\ PrimFloat.is_nan (fold_left fmin [PrimFloat.two] PrimFloat.nan) = false.
Proof. split; vm_compute; reflexivity. Qed.

(** Unloading a live model reaches the engine once; the count it keeps
    goes from 0 to 1 and stays there on a second [Unload]. *)
Example demo_Unload_twice :
  hidden (native (snd ((Unload 1;; Unload 1) demo_world))) = 1%nat
  /\ unloads (trace (snd ((Unload 1;; Unload 1) demo_world))) = 1%nat.
Proof. split; vm_compute; reflexivity. Qed.

End Demo_runs.

(** * Lifetimes and bounds on the concrete platform *)
Section Demo_lifetimes.

#[local] Existing Instance demo_h.
#[local] Existing Instance demo_engine.
#[local] Existing Instance demo_mesh_hpp.

Lemma demo_objects :
  1%N <> 2%N /\ 2%N <> 1%N /\
  objs demo_world !! 1%N = Some demo_loaded /\
  objs demo_world !! 2%N = Some demo_empty /\
  live demo_loaded.
Proof.
  split_and!; try discriminate; try reflexivity. left. discriminate.
Qed.

Lemma moves_engine_traffic_witness :
  (1%N <> 2%N /\ objs demo_world !! 1%N = Some demo_loaded /\
   objs demo_world !! 2%N = Some demo_empty) /\
  trace (snd (Model_move 1 2 demo_world)) = trace demo_world /\
  trace (snd (assign_move 1 2 demo_world))
  = trace demo_world ++ [EngineCall (UnloadModel demo_loaded)].
Proof.
  destruct demo_objects as (Hne & _ & Hloaded & Hempty & Hlive).
  destruct (moves_engine_traffic 1 2 demo_world demo_loaded demo_empty
              Hne Hloaded Hempty) as ((Htrace & _) & Hrelease & _).
  split; [split_and!; assumption |].
  split; [exact Htrace | exact (Hrelease Hlive)].
Defined.

Lemma demo_exclusive : exclusive (delete 2%N (objs demo_world)).
Proof.
  intros a b ma mb Hab Ha Hb.
  apply lookup_delete_Some in Ha as [_ Ha].
  apply lookup_delete_Some in Hb as [_ Hb].
  simpl in Ha, Hb.
  repeat (apply lookup_insert_Some in Ha as [[<- <-] | [? Ha]]);
    try (apply lookup_singleton_Some in Ha as [<- <-]);
    repeat (apply lookup_insert_Some in Hb as [[<- <-] | [? Hb]]);
    try (apply lookup_singleton_Some in Hb as [<- <-]);
    try contradiction;
    split; intros Hnull; simpl in *; congruence.
Qed.

Lemma moves_keep_exclusive_witness :
  (2%N <> 1%N /\ objs demo_world !! 2%N = Some demo_empty /\
   objs demo_world !! 1%N = Some demo_loaded /\
   exclusive (delete 2%N (objs demo_world))) /\
  exclusive (objs (snd (Model_move 2 1 demo_world))) /\
  exclusive (objs (snd (assign_move 2 1 demo_world))).
Proof.
  destruct demo_objects as (_ & Hne & Hloaded & Hempty & _).
  split; [split_and!; try assumption; exact demo_exclusive |].
  exact (proj1 (moves_keep_exclusive 2 1 demo_world demo_empty demo_loaded
                  Hne Hempty Hloaded demo_exclusive)).
Defined.

Lemma move_then_destroy_unloads_once_witness :
  (2%N <> 1%N /\ objs demo_world !! 2%N = Some demo_empty /\
   objs demo_world !! 1%N = Some demo_loaded /\ live demo_loaded) /\
  exists w',
    (Model_move 2 1;; Model_destroy 1;; Model_destroy 2) demo_world
    = (Returns tt, w') /\
    trace w' = trace demo_world ++ [EngineCall (UnloadModel demo_loaded)] /\
    objs w' !! 2%N = None /\ objs w' !! 1%N = None.
Proof.
  destruct demo_objects as (_ & Hne & Hloaded & Hempty & Hlive).
  split; [split_and!; assumption |].
  exact (move_then_destroy_unloads_once 2 1 demo_world demo_empty demo_loaded
           Hne Hempty Hloaded Hlive).
Defined.

Lemma raw_copy_then_destroy_unloads_twice_witness :
  (2%N <> 1%N /\ objs demo_world !! 2%N = Some demo_empty /\
   objs demo_world !! 1%N = Some demo_loaded /\ live demo_loaded) /\
  exists w',
    (assign_raw 2 demo_loaded;; Model_destroy 2;; Model_destroy 1) demo_world
    = (Returns tt, w') /\
    trace w'
    = trace demo_world ++ [EngineCall (UnloadModel demo_loaded);
                           EngineCall (UnloadModel demo_loaded)].
Proof.
  destruct demo_objects as (_ & Hne & Hloaded & Hempty & Hlive).
  split; [split_and!; assumption |].
  exact (raw_copy_then_destroy_unloads_twice 2 1 demo_world demo_empty
           demo_loaded Hne Hempty Hloaded Hlive).
Defined.

Lemma Load_never_unloads_witness :
  objs demo_world !! 1%N = Some demo_loaded /\
  unloads (trace (snd (Load_fileName 1 "ship.obj" demo_world)))
  = unloads (trace demo_world).
Proof.
  destruct demo_objects as (_ & _ & Hloaded & _).
  split; [exact Hloaded |].
  exact (proj2 (proj1 (Load_never_unloads 1 demo_world demo_loaded Hloaded)
                  "ship.obj")).
Defined.

Lemma Unload_keeps_other_fields_witness :
  objs demo_world !! 1%N = Some demo_loaded /\
  exists m',
    objs (snd (Unload 1 demo_world)) !! 1%N = Some m' /\
    (forall f, f <> F_meshes -> f <> F_materials -> same_field f demo_loaded m') /\
    (forall a, a <> 1%N ->
       objs (snd (Unload 1 demo_world)) !! a = objs demo_world !! a).
Proof.
  destruct demo_objects as (_ & _ & Hloaded & _).
  split; [exact Hloaded |].
  exact (Unload_keeps_other_fields 1 demo_world demo_loaded Hloaded).
Defined.

Lemma destroy_absorbs_Unload_witness :
  objs demo_world !! 1%N = Some demo_loaded /\
  (Unload 1;; Model_destroy 1) demo_world = Model_destroy 1 demo_world.
Proof.
  destruct demo_objects as (_ & _ & Hloaded & _).
  split; [exact Hloaded |].
  exact (destroy_absorbs_Unload 1 demo_world demo_loaded Hloaded).
Defined.

Lemma raw_self_assignment_is_identity_witness :
  objs demo_world !! 1%N = Some demo_loaded /\
  assign_raw 1 demo_loaded demo_world = (Returns 1%N, demo_world).
Proof.
  destruct demo_objects as (_ & _ & Hloaded & _).
  split; [exact Hloaded |].
  exact (raw_self_assignment_is_identity 1 demo_world demo_loaded Hloaded).
Defined.

Lemma GetTransformedBoundingBox_after_Unload_witness :
  objs demo_world !! 1%N = Some demo_loaded /\ 1 <= meshCount demo_loaded /\
  fst ((Unload 1;; GetTransformedBoundingBox 1) demo_world) = Undefined.
Proof.
  destruct demo_objects as (_ & _ & Hloaded & _).
  assert (1 <= meshCount demo_loaded) as Hcount by (simpl; lia).
  split; [exact Hloaded |]. split; [exact Hcount |].
  exact (proj1 (GetTransformedBoundingBox_after_Unload 1 demo_world demo_loaded
                  Hloaded Hcount)).
Defined.

Lemma GetTransformedBoundingBox_of_moved_from_witness :
  (2%N <> 1%N /\ objs demo_world !! 2%N = Some demo_empty /\
   objs demo_world !! 1%N = Some demo_loaded) /\
  exists w', Model_move 2 1 demo_world = (Returns tt, w') /\
             GetTransformedBoundingBox 1 w' = (Returns zero_box, w').
Proof.
  destruct demo_objects as (_ & Hne & Hloaded & Hempty & _).
  split; [split_and!; assumption |].
  exact (proj1 (GetTransformedBoundingBox_of_moved_from 2 1 demo_world
                  demo_empty demo_loaded Hne Hempty Hloaded)).
Defined.

(** Nothing compares below NaN. *)
Lemma nothing_below_NaN (p : PrimFloat.float) :
  PrimFloat.ltb p (x (min nan_box)) = false.
Proof.
  rewrite FloatAxioms.ltb_spec.
  match goal with
  | |- SpecFloat.SFltb _ ?v = false =>
      let r := eval vm_compute in v in change v with r
  end.
  unfold SpecFloat.SFltb, SpecFloat.SFcompare.
  destruct (FloatOps.Prim2SF p) as [? | ? | | ? ? ?]; reflexivity.
Qed.

(** The least [x] of the three meshes are 1, NaN and 6 once the offset 1
    is added; the box returned has 6, not 1. *)
Lemma GetTransformedBoundingBox_forgets_before_NaN_witness :
  (objs nan_world !! 1%N = Some demo_loaded /\ 1 <= meshCount demo_loaded /\
   mesh_mem (native nan_world) !! 7%N = Some nan_meshes) /\
  exists result,
    fst (GetTransformedBoundingBox 1 nan_world) = Returns result /\
    x (min result) = PrimFloat.add demo_five PrimFloat.one.
Proof.
  assert (objs nan_world !! 1%N = Some demo_loaded) as Hobj by reflexivity.
  assert (1 <= meshCount demo_loaded) as Hcount by (simpl; lia).
  assert (mesh_mem (native nan_world) !! 7%N = Some nan_meshes) as Hblk
    by reflexivity.
  split; [split_and!; assumption |].
  destruct (GetTransformedBoundingBox_forgets_before_NaN 1 nan_world
              demo_loaded 7 nan_meshes
              (take 1 (mesh_boxes demo_loaded nan_meshes))
              (drop 2 (mesh_boxes demo_loaded nan_meshes))
              nan_box
              Hobj Hcount eq_refl Hblk ltac:(simpl; lia) eq_refl)
    as (result & Hrun & Hx & _).
  exists result. split; [exact Hrun |].
  rewrite (Hx nothing_below_NaN). vm_compute. reflexivity.
Defined.

End Demo_lifetimes.

(** * Bounds on meshes with and without NaN *)
Section Plain_runs.

#[local] Existing Instance demo_h.
#[local] Existing Instance demo_engine.
#[local] Existing Instance demo_mesh_hpp.

(** The coordinates of the three plain meshes, both zeros and infinity
    among them, are mutually comparable. *)
Lemma plain_comparable :
  comparable_on (coordinates (mesh_boxes plain_model plain_meshes)).
Proof. apply comparable_onb_sound. vm_compute. reflexivity. Qed.

Lemma GetTransformedBoundingBox_fold_and_bounds_witness :
  (objs (plain_world plain_meshes) !! 1%N = Some plain_model /\
   1 <= meshCount plain_model /\
   meshCount plain_model <= Z.of_nat (length plain_meshes)) /\
  exists first others,
    mesh_boxes plain_model plain_meshes = first :: others /\
    fst (GetTransformedBoundingBox 1 (plain_world plain_meshes))
    = Returns (merged_boxes first others) /\
    least_enclosing (merged_boxes first others) (first :: others).
Proof.
  assert (objs (plain_world plain_meshes) !! 1%N = Some plain_model) as Hobj
    by reflexivity.
  assert (1 <= meshCount plain_model) as Hcount by (simpl; lia).
  assert (meshCount plain_model <= Z.of_nat (length plain_meshes)) as Hlen
    by (simpl; lia).
  split; [split_and!; assumption |].
  destruct (GetTransformedBoundingBox_fold_and_bounds 1
              (plain_world plain_meshes) plain_model 7 plain_meshes
              Hobj Hcount eq_refl eq_refl Hlen)
    as (first & others & Hsplit & Hrun & _ & Hleast).
  exists first, others. split; [exact Hsplit |]. split.
  - rewrite Hrun. reflexivity.
  - apply Hleast. rewrite <- Hsplit. exact plain_comparable.
Defined.

(** On the meshes of [nan_world] the object has [meshCount = 3] and a valid
    array, a box is returned, and it is not the componentwise minimum: the
    box of mesh 0 has its least [x] below that of the result. *)
Lemma GetTransformedBoundingBox_not_least_with_NaN :
  objs nan_world !! 1%N = Some demo_loaded /\ 1 <= meshCount demo_loaded /\
  exists result box,
    fst (GetTransformedBoundingBox 1 nan_world) = Returns result /\
    box ∈ mesh_boxes demo_loaded nan_meshes /\
    flt (x (min box)) (x (min result)) = true /\
    ~ least_enclosing result (mesh_boxes demo_loaded nan_meshes).
Proof.
  split; [reflexivity |]. split; [simpl; lia |].
  eexists. eexists. split; [vm_compute; reflexivity |].
  assert (mkBoundingBox
            (mkVector3 PrimFloat.one PrimFloat.one PrimFloat.one)
            (mkVector3 PrimFloat.two PrimFloat.two PrimFloat.two)
          ∈ mesh_boxes demo_loaded nan_meshes) as Hin.
  { vm_compute. apply list_elem_of_here. }
  split; [exact Hin |]. split; [vm_compute; reflexivity |].
  intros [Henc _]. destruct (Henc _ Hin) as [Hx _].
  vm_compute in Hx. discriminate.
Qed.

Lemma GetTransformedBoundingBox_order_independent_witness :
  (plain_meshes ≡ₚ plain_meshes_shuffled /\
   meshCount plain_model = Z.of_nat (length plain_meshes) /\
   comparable_on (coordinates (mesh_boxes plain_model plain_meshes))) /\
  exists r r',
    fst (GetTransformedBoundingBox 1 (plain_world plain_meshes)) = Returns r /\
    fst (GetTransformedBoundingBox 1 (plain_world plain_meshes_shuffled))
    = Returns r' /\
    encloses r r' /\ encloses r' r.
Proof.
  assert (plain_meshes ≡ₚ plain_meshes_shuffled) as Hperm.
  { symmetry. apply (Permutation_cons_append [_; _]). }
  assert (meshCount plain_model = Z.of_nat (length plain_meshes)) as Hlen
    by reflexivity.
  split; [split_and!; try assumption; exact plain_comparable |].
  apply (GetTransformedBoundingBox_order_independent (H := demo_h) 1
           (plain_world plain_meshes) (plain_world plain_meshes_shuffled)
           plain_model 7 plain_meshes plain_meshes_shuffled);
    try reflexivity; try assumption.
  - simpl. lia.
  - exact plain_comparable.
Defined.

(** The two orders do give different boxes: the least [x] is +0 in one and
    -0 in the other, which [<] cannot tell apart. *)
Example zero_sign_depends_on_order :
  (exists r, fst (GetTransformedBoundingBox 1 (plain_world plain_meshes))
             = Returns r /\
             PrimFloat.classify (x (min r)) = FloatClass.PZero) /\
  (exists r, fst (GetTransformedBoundingBox 1
                    (plain_world plain_meshes_shuffled)) = Returns r /\
             PrimFloat.classify (x (min r)) = FloatClass.NZero).
Proof.
  split; eexists; (split; [vm_compute; reflexivity |]); vm_compute;
    reflexivity.
Qed.

End Plain_runs.
